(** * webscrape-pro: the crawl / fetch orchestration core

    A shallow embedding of the rate limiter, the retry manager, the cache
    manager, the sequential and the asynchronous fetcher and the crawler of
    [webscrape_pro], with the properties the specification states of them.

    Conventions.
    - Python [float] values (rates, token counts, delays, clock readings)
      are modelled as exact rationals [Q]; rounding is not modelled.
    - Python [int] values are [Z]; counters of loop iterations are [nat].
    - Wall-clock time is an explicit clock value threaded through the
      operations; [time.sleep] advances it.
    - Calls into third-party libraries ([requests], [cachetools],
      [diskcache], [hashlib], [urllib], [bs4], [random]) are either small
      models of the library's documented behaviour or Section variables. *)

From Stdlib Require Import QArith Qminmax Qpower Lqa ZArith Lia List Sorted.
From stdpp Require Import gmap strings list.

(* ===================================================================== *)
(** ** middleware/rate_limiter.py *)
(* ===================================================================== *)

Module RateLimiter.

Local Open Scope Q_scope.

(** [class TokenBucket]: [rate] tokens are added per second, [capacity] is
    the integer passed to the constructor, [tokens] becomes a float after
    the first refill. *)
Record TokenBucket : Type := mkTokenBucket {
  rate : Q;
  capacity : Z;
  tokens : Q;
  last_update : Q
}.

(** [TokenBucket.__init__(rate, capacity)], called when [time.time()]
    reads [now]. *)
Definition init (r : Q) (cap : Z) (now : Q) : TokenBucket :=
  {| rate := r; capacity := cap; tokens := inject_Z cap; last_update := now |}.

(** [TokenBucket._add_tokens], called when [time.time()] reads [now]. *)
Definition _add_tokens (now : Q) (b : TokenBucket) : TokenBucket :=
  let elapsed := now - last_update b in
  {| rate := rate b;
     capacity := capacity b;
     tokens := Qmin (inject_Z (capacity b)) (tokens b + elapsed * rate b);
     last_update := now |}.

Definition take (cost : Z) (b : TokenBucket) : TokenBucket :=
  {| rate := rate b;
     capacity := capacity b;
     tokens := tokens b - inject_Z cost;
     last_update := last_update b |}.

(** What a call of [acquire] does: it returns [True] or [False], or an
    exception leaves it ([deficit / self.rate] with a zero rate, or
    [time.sleep] of a negative duration). *)
Inductive exn : Type := ZeroDivisionError | ValueError.

Inductive outcome : Type :=
| Returned (r : bool)
| Raised (e : exn).

(** The process as [acquire] sees it: the clock and the bucket. *)
Record sys : Type := mkSys {
  clock : Q;
  bucket : TokenBucket
}.

(** [TokenBucket.acquire(tokens=cost, blocking)].  [time.sleep(wait_time)]
    suspends the caller for [wait_time] seconds or longer: [oversleep] is
    that extra time. *)
Definition acquire (cost : Z) (blocking : bool) (oversleep : Q) (s : sys)
  : outcome * sys :=
  let now := clock s in
  let b1 := _add_tokens now (bucket s) in
  if Qle_bool (inject_Z cost) (tokens b1) then
    (Returned true, mkSys now (take cost b1))
  else if negb blocking then
    (Returned false, mkSys now b1)
  else
    let deficit := inject_Z cost - tokens b1 in
    if Qeq_bool (rate b1) 0 then (Raised ZeroDivisionError, mkSys now b1)
    else
      let wait_time := deficit / rate b1 in
      if Qle_bool 0 wait_time then
        let now' := now + wait_time + oversleep in
        let b2 := _add_tokens now' b1 in
        (Returned true, mkSys now' (take cost b2))
      else (Raised ValueError, mkSys now b1).

(** The operations of a run: the clock advances, or [acquire] is called. *)
Inductive op : Type :=
| Advance (dt : Q)
| Acquire (cost : Z) (blocking : bool) (oversleep : Q).

Definition step (o : op) (s : sys) : outcome * sys :=
  match o with
  | Advance dt => (Returned true, mkSys (clock s + dt) (bucket s))
  | Acquire cost blocking oversleep => acquire cost blocking oversleep s
  end.

(** One operation of a run: the state before it, the operation, what it
    returned, and the state after it. *)
Record transition : Type := mkTransition {
  before : sys;
  operation : op;
  returned : outcome;
  after : sys
}.

Fixpoint transitions (ops : list op) (s : sys) : list transition :=
  match ops with
  | [] => []
  | o :: ops' =>
      let '(out, s') := step o s in
      mkTransition s o out s' :: transitions ops' s'
  end.

(** The states observed after each operation of [ops], in order. *)
Definition run (ops : list op) (s : sys) : list sys :=
  after <$> transitions ops s.







(** [class AdaptiveRateLimiter]. *)
Record AdaptiveRateLimiter : Type := mkAdaptive {
  current_rps : Q;
  min_rps : Q;
  max_rps : Q;
  arl_bucket : TokenBucket
}.

(** Python's [int(x)] on a float: truncation towards zero. *)
Definition int_of (x : Q) : Z := Z.quot (Qnum x) (Zpos (Qden x)).

Definition arl_init (initial_rps mn mx : Q) (now : Q) : AdaptiveRateLimiter :=
  {| current_rps := initial_rps; min_rps := mn; max_rps := mx;
     arl_bucket := init initial_rps (int_of (initial_rps * 2)) now |}.

(** [AdaptiveRateLimiter.report_response(status_code)]. *)
Definition report_response (status_code : Z) (now : Q) (a : AdaptiveRateLimiter)
  : AdaptiveRateLimiter :=
  if Z.eqb status_code 429 then
    let rps := Qmax (min_rps a) (current_rps a * (5 # 10)) in
    {| current_rps := rps; min_rps := min_rps a; max_rps := max_rps a;
       arl_bucket := init rps (int_of (rps * 2)) now |}
  else if Z.ltb status_code 400 then
    let rps := Qmin (max_rps a) (current_rps a * (11 # 10)) in
    {| current_rps := rps; min_rps := min_rps a; max_rps := max_rps a;
       arl_bucket := init rps (int_of (rps * 2)) now |}
  else a.

(** [n] consecutive calls [report_response(status_code)]; the clock
    readings at the calls are [now 0], [now 1], ... *)
Fixpoint report_many (status_code : Z) (now : nat -> Q) (n : nat)
  (a : AdaptiveRateLimiter) : AdaptiveRateLimiter :=
  match n with
  | O => a
  | S k => report_response status_code (now k) (report_many status_code now k a)
  end.

(** [AdaptiveRateLimiter.acquire()]: the bucket's [acquire] with its
    defaults, [tokens=1] and [blocking=True]. *)
Definition arl_acquire (oversleep : Q) (now : Q) (a : AdaptiveRateLimiter)
  : outcome * sys :=
  acquire 1 true oversleep (mkSys now (arl_bucket a)).

End RateLimiter.

(* ===================================================================== *)
(** ** Python values shared by the modules below *)
(* ===================================================================== *)

(** How a call ends: it returns a value, returns [None], raises an
    exception of the program, or raises the [TypeError] of
    [raise None]. *)
Inductive result (T E : Type) : Type :=
| Return (v : T)
| ReturnNone
| Raise (e : E)
| RaiseTypeError.

Arguments Return {T E} v.
Arguments ReturnNone {T E}.
Arguments Raise {T E} e.
Arguments RaiseTypeError {T E}.

(** [random.uniform(a, b)] is [a + (b - a) * random()], with [random()]
    drawn from the half-open unit interval; [u] is that draw. *)
Definition uniform (a b u : Q) : Q := (a + (b - a) * u)%Q.

(* ===================================================================== *)
(** ** middleware/retry.py *)
(* ===================================================================== *)

Module Retry.

Local Open Scope Q_scope.

Section Manager.

(** [T] is what the wrapped function returns, [E] the exceptions it can
    raise, [W] the state of the world it runs in. *)
Context {T E W : Type}.

(** [retry_exceptions] is the test [isinstance(e, self.retry_exceptions)]. *)
Record RetryManager : Type := mkRetryManager {
  max_retries : Z;
  base_delay : Q;
  max_delay : Q;
  exponential_base : Q;
  retry_exceptions : E -> bool
}.

(** [RetryManager.calculate_delay(attempt)]; [u] is the draw of
    [random.uniform]. *)
Definition backoff (m : RetryManager) (attempt : Z) : Q :=
  Qmin (base_delay m * Qpower (exponential_base m) attempt) (max_delay m).

Definition calculate_delay (m : RetryManager) (attempt : Z) (u : Q) : Q :=
  let delay := backoff m attempt in
  let jitter := delay * (25 # 100) in
  delay + uniform (- jitter) jitter u.

(** The world [execute] runs in: calling [func], drawing a random number,
    sleeping. *)
Variable func : W -> (E + T) * W.
Variable random : W -> Q * W.
Variable sleep : Q -> W -> W.

(** What [execute] leaves behind, next to the world: its result, the
    outcome of every invocation of [func] in order, and the delays slept. *)
Record run : Type := mkRun {
  res : result T E;
  invocations : list (E + T);
  sleeps : list Q;
  world : W
}.

Definition after_call (o : E + T) (r : run) : run :=
  mkRun (res r) (o :: invocations r) (sleeps r) (world r).

Definition after_sleep (d : Q) (r : run) : run :=
  mkRun (res r) (invocations r) (d :: sleeps r) (world r).

Definition raise_last (last_exception : option E) : result T E :=
  match last_exception with
  | Some e => Raise e
  | None => RaiseTypeError
  end.

(** The body of [for attempt in range(self.max_retries + 1)], with
    [todo] iterations left, followed by [raise last_exception]. *)
Fixpoint execute_from (m : RetryManager) (todo : nat) (attempt : Z)
  (last_exception : option E) (w : W) : run :=
  match todo with
  | O => mkRun (raise_last last_exception) [] [] w
  | S todo' =>
      match func w with
      | (inr v, w1) => mkRun (Return v) [inr v] [] w1
      | (inl e, w1) =>
          if retry_exceptions m e then
            if (attempt <? max_retries m)%Z then
              let '(u, w2) := random w1 in
              let delay := calculate_delay m attempt u in
              after_call (inl e) (after_sleep delay
                (execute_from m todo' (attempt + 1)%Z (Some e) (sleep delay w2)))
            else
              after_call (inl e)
                (execute_from m todo' (attempt + 1)%Z (Some e) w1)
          else mkRun (Raise e) [inl e] [] w1
      end
  end.

(** [RetryManager.execute(func)]. *)
Definition execute (m : RetryManager) (w : W) : run :=
  execute_from m (Z.to_nat (max_retries m + 1)) 0%Z None w.

(** The retry loop of [AsyncScraper.fetch]:
    [for attempt in range(self.config.max_retries)], where the body of the
    [try] is [func]; [is_Exception] is the test of [except Exception];
    the loop ends without a [return] when it runs out of attempts. *)
Variable is_Exception : E -> bool.

Fixpoint async_attempts (max_retries_cfg : Z) (todo : nat) (attempt : Z) (w : W)
  : run :=
  match todo with
  | O => mkRun ReturnNone [] [] w
  | S todo' =>
      match func w with
      | (inr v, w1) => mkRun (Return v) [inr v] [] w1
      | (inl e, w1) =>
          if is_Exception e then
            if (attempt =? max_retries_cfg - 1)%Z then mkRun (Raise e) [inl e] [] w1
            else
              let delay := inject_Z (2 ^ attempt) in
              after_call (inl e) (after_sleep delay
                (async_attempts max_retries_cfg todo' (attempt + 1)%Z (sleep delay w1)))
          else mkRun (Raise e) [inl e] [] w1
      end
  end.

Definition async_retry (max_retries_cfg : Z) (w : W) : run :=
  async_attempts max_retries_cfg (Z.to_nat max_retries_cfg) 0%Z w.

(** The last invocation of [func] a run made, when it made one. *)
Definition final_attempt (r : run) : option (E + T) := last (invocations r).

End Manager.

Arguments RetryManager : clear implicits.
Arguments run : clear implicits.

End Retry.

(* ===================================================================== *)
(** ** middleware/cache.py *)
(* ===================================================================== *)

Module Cache.

Local Open Scope Q_scope.

Section Manager.

(** [V] is the type of the cached values. *)
Context {V : Type}.

(** [hashlib.md5(s.encode()).hexdigest()]. *)
Variable md5 : string -> string.

(** [cachetools.TTLCache(maxsize, ttl)], after the library's
    documentation: every item expires [ttl] seconds after it was stored,
    the time-to-live is fixed when the cache is constructed, and when the
    cache is full the least recently used item makes room.  [links] holds
    the items with their expiry times, least recently used first. *)
Record TTLCache : Type := mkTTLCache {
  maxsize : Z;
  ttl : Z;
  links : list (string * (V * Q))
}.

Definition expired (time : Q) (item : string * (V * Q)) : bool :=
  Qle_bool (snd (snd item)) time.

Definition has_key (key : string) (item : string * (V * Q)) : bool :=
  String.eqb key (fst item).

(** [TTLCache.expire(time)]. *)
Definition expire (time : Q) (c : TTLCache) : TTLCache :=
  mkTTLCache (maxsize c) (ttl c)
    (List.filter (fun item => negb (expired time item)) (links c)).

Definition getlink (key : string) (c : TTLCache) : option (string * (V * Q)) :=
  List.find (has_key key) (links c).

(** [key in cache]: the key is stored and has not expired. *)
Definition ttl_contains (key : string) (time : Q) (c : TTLCache) : bool :=
  match getlink key c with
  | Some item => negb (expired time item)
  | None => false
  end.

Definition without (key : string) (l : list (string * (V * Q))) :=
  List.filter (fun item => negb (has_key key item)) l.

(** [cache.get(key)]: the value and the cache with the item moved to the
    most recently used end, or [None] and the cache as it was. *)
Definition ttl_get (key : string) (time : Q) (c : TTLCache)
  : option V * TTLCache :=
  match getlink key c with
  | Some item =>
      if expired time item then (None, c)
      else (Some (fst (snd item)),
            mkTTLCache (maxsize c) (ttl c) (without key (links c) ++ [item]))
  | None => (None, c)
  end.

(** [cache[key] = value] at clock reading [time]: expired items go, then
    least recently used ones while there is no room for a new key, and the
    item is stored with the expiry [time + ttl] of the constructor.
    [None] is the library's [ValueError] for a cache that can hold
    nothing. *)
Definition ttl_setitem (key : string) (value : V) (time : Q) (c : TTLCache)
  : option TTLCache :=
  if (maxsize c <? 1)%Z then None
  else
    let c1 := expire time c in
    let kept :=
      match getlink key c1 with
      | Some _ => without key (links c1)
      | None =>
          List.skipn (Z.to_nat (Z.of_nat (length (links c1)) + 1 - maxsize c))
            (links c1)
      end in
    Some (mkTTLCache (maxsize c) (ttl c)
            (kept ++ [(key, (value, time + inject_Z (ttl c)))])).

Definition ttl_delitem (key : string) (c : TTLCache) : TTLCache :=
  mkTTLCache (maxsize c) (ttl c) (without key (links c)).

(** [diskcache.Cache(directory)], after the library's documentation:
    [set(key, value, expire=seconds)] stores the value with the expiry
    [now + seconds], or without expiry when [seconds] is [None]. *)
Definition DiskCache : Type := gmap string (V * option Q).

Definition live (time : Q) (entry : V * option Q) : bool :=
  match snd entry with
  | Some expire_time => negb (Qle_bool expire_time time)
  | None => true
  end.

Definition disk_contains (key : string) (time : Q) (c : DiskCache) : bool :=
  match c !! key with
  | Some entry => live time entry
  | None => false
  end.

Definition disk_get (key : string) (time : Q) (c : DiskCache) : option V :=
  match c !! key with
  | Some entry => if live time entry then Some (fst entry) else None
  | None => None
  end.

Definition disk_set (key : string) (value : V) (expire_arg : option Z) (time : Q)
  (c : DiskCache) : DiskCache :=
  <[key := (value, (fun seconds => time + inject_Z seconds) <$> expire_arg)]> c.

(** [class CacheManager]: [self.backend] and [self.cache] together. *)
Inductive CacheManager : Type :=
| Memory (cache : TTLCache)
| Disk (cache : DiskCache).

(** [CacheManager.__init__(backend, cache_dir, maxsize, ttl)] for the two
    backends it knows; every other [backend] raises [ValueError]. *)
Definition init_memory (maxsize_arg ttl_arg : Z) : CacheManager :=
  Memory (mkTTLCache maxsize_arg ttl_arg []).

Definition init_disk : CacheManager := Disk ∅.

Definition _make_key (key : string) : string := md5 key.

(** [CacheManager.has(key)]. *)
Definition has (key : string) (time : Q) (m : CacheManager) : bool :=
  let cache_key := _make_key key in
  match m with
  | Memory c => ttl_contains cache_key time c
  | Disk c => disk_contains cache_key time c
  end.

(** [CacheManager.get(key)]. *)
Definition get (key : string) (time : Q) (m : CacheManager)
  : option V * CacheManager :=
  let cache_key := _make_key key in
  match m with
  | Memory c => let '(v, c') := ttl_get cache_key time c in (v, Memory c')
  | Disk c => (disk_get cache_key time c, m)
  end.

(** [CacheManager.set(key, value, ttl)], [None] when the library raises. *)
Definition set (key : string) (value : V) (ttl_arg : option Z) (time : Q)
  (m : CacheManager) : option CacheManager :=
  let cache_key := _make_key key in
  match m with
  | Memory c => Memory <$> ttl_setitem cache_key value time c
  | Disk c => Some (Disk (disk_set cache_key value ttl_arg time c))
  end.

(** [CacheManager.delete(key)]. *)
Definition delete (key : string) (time : Q) (m : CacheManager) : CacheManager :=
  let cache_key := _make_key key in
  match m with
  | Memory c =>
      if ttl_contains cache_key time c then Memory (ttl_delitem cache_key c) else m
  | Disk c =>
      if disk_contains cache_key time c then Disk (base.delete cache_key c) else m
  end.

(** [CacheManager.clear()]. *)
Definition clear (m : CacheManager) : CacheManager :=
  match m with
  | Memory c => Memory (mkTTLCache (maxsize c) (ttl c) [])
  | Disk _ => Disk ∅
  end.

(** The values a cache holds, expired or not. *)
Definition stored (m : CacheManager) : list V :=
  match m with
  | Memory c => (fun item => fst (snd item)) <$> links c
  | Disk c => (fun kv => fst (snd kv)) <$> map_to_list c
  end.

End Manager.

Arguments TTLCache : clear implicits.
Arguments DiskCache : clear implicits.
Arguments CacheManager : clear implicits.

End Cache.

(* ===================================================================== *)
(** ** core/scraper.py and core/async_scraper.py *)
(* ===================================================================== *)

Module Scraper.

Local Open Scope Q_scope.

(** The part of [requests.Response] the scraper looks at. *)
Record Response : Type := mkResponse {
  status_code : Z;
  content : string
}.

(** The exceptions that travel through the scraper.  All are subclasses of
    [Exception] except [CancelledError]. *)
Inductive exn : Type :=
| ValueError
| TypeError
| AttributeError
| IndexError
| HTTPError (status : Z)
| RequestException (kind : nat)
| ParseError (kind : nat)
| CancelledError.

Definition is_Exception (e : exn) : bool :=
  match e with
  | CancelledError => false
  | _ => true
  end.

(** [requests.Response.raise_for_status()], after the library's
    documentation: [HTTPError] for a client error (4xx) or a server error
    (5xx), nothing otherwise. *)
Definition raise_for_status (r : Response) : option exn :=
  if ((400 <=? status_code r) && (status_code r <? 600))%Z
  then Some (HTTPError (status_code r))
  else None.


(** [class ScrapingConfig], the fields that decide what [fetch] does. *)
Record ScrapingConfig : Type := mkConfig {
  delay_range : Q * Q;
  max_retries : Z;
  use_cache : bool;
  cache_ttl : Z
}.

(** The state a [SmartScraper] works on: the clock, [self.cache], and how
    many requests were sent and random numbers drawn so far. *)
Record World : Type := mkWorld {
  clock : Q;
  cache : option (Cache.CacheManager Response);
  requests_sent : nat;
  draws : nat
}.

Section Smart.

(** The libraries and the network: [hashlib.md5], [validators.url],
    [urlparse(url).scheme], [urlparse(url).netloc], the outcome of the
    [n]-th [session.get] of the run, and the [n]-th draw of [random()]. *)
Variable md5 : string -> string.
Variable validators_url : string -> bool.
Variable scheme : string -> string.
Variable netloc : string -> string.
Variable session_get : nat -> string -> exn + Response.
Variable random_draw : nat -> Q.

(** [SmartScraper.__init__]: [CacheManager()] with its defaults (memory
    backend, [maxsize=1000], [ttl=3600]) when caching is on. *)
Definition new_world (cfg : ScrapingConfig) (now : Q) : World :=
  mkWorld now
    (if use_cache cfg then Some (Cache.init_memory 1000 3600) else None) 0 0.

(** [RetryManager(max_retries=self.config.max_retries)]. *)
Definition retry_manager (cfg : ScrapingConfig) : Retry.RetryManager exn :=
  Retry.mkRetryManager (max_retries cfg) 1 60 2 is_Exception.

(** [URLValidator.validate(url)] with the default schemes. *)
Definition validate (url : string) : option exn :=
  if String.eqb url "" then Some ValueError
  else if negb (validators_url url) then Some ValueError
  else if negb (String.eqb (scheme url) "http" || String.eqb (scheme url) "https")
  then Some ValueError
  else if String.eqb (netloc url) "" then Some ValueError
  else None.

Definition random (w : World) : Q * World :=
  (random_draw (draws w),
   mkWorld (clock w) (cache w) (requests_sent w) (S (draws w))).

Definition sleep (d : Q) (w : World) : World :=
  mkWorld (clock w + d) (cache w) (requests_sent w) (draws w).

Definition with_cache (c : option (Cache.CacheManager Response)) (w : World) : World :=
  mkWorld (clock w) c (requests_sent w) (draws w).

(** [SmartScraper._apply_delay]. *)
Definition _apply_delay (cfg : ScrapingConfig) (w : World) : World :=
  let '(u, w1) := random w in
  sleep (uniform (fst (delay_range cfg)) (snd (delay_range cfg)) u) w1.

(** The closure [_do_request] of [fetch]. *)
Definition _do_request (url : string) (w : World) : (exn + Response) * World :=
  (session_get (requests_sent w) url,
   mkWorld (clock w) (cache w) (S (requests_sent w)) (draws w)).

(** [SmartScraper.fetch(url)] from [# Apply delay] on: the part that runs
    when the cache did not answer. *)
Definition fetch_remote (cfg : ScrapingConfig) (url cache_key : string) (w : World)
  : result Response exn * World :=
  let w1 := _apply_delay cfg w in
  let r := Retry.execute (_do_request url) random sleep (retry_manager cfg) w1 in
  let w2 := Retry.world r in
  match Retry.res r with
  | Return response =>
      match raise_for_status response with
      | Some e => (Raise e, w2)
      | None =>
          match cache w2 with
          | Some c =>
              match Cache.set md5 cache_key response (Some (cache_ttl cfg))
                      (clock w2) c with
              | Some c' => (Return response, with_cache (Some c') w2)
              | None => (Raise ValueError, w2)
              end
          | None => (Return response, w2)
          end
      end
  | other => (other, w2)
  end.

(** [SmartScraper.fetch(url)]. *)
Definition fetch (cfg : ScrapingConfig) (url : string) (w : World)
  : result Response exn * World :=
  match validate url with
  | Some e => (Raise e, w)
  | None =>
      let cache_key := md5 url in
      match cache w with
      | Some c =>
          if Cache.has md5 cache_key (clock w) c then
            let '(v, c') := Cache.get md5 cache_key (clock w) c in
            (match v with Some r => Return r | None => ReturnNone end,
             with_cache (Some c') w)
          else fetch_remote cfg url cache_key w
      | None => fetch_remote cfg url cache_key w
      end
  end.

(** The loop of [SmartScraper.fetch_many]: [results] is the list built so
    far; an entry is a response or [None].  [except Exception] lets an
    exception that is no [Exception] through. *)
Fixpoint fetch_many_from (cfg : ScrapingConfig) (urls : list string)
  (results : list (option Response)) (w : World)
  : result (list (option Response)) exn * World :=
  match urls with
  | [] => (Return results, w)
  | url :: urls' =>
      let '(r, w1) := fetch cfg url w in
      match r with
      | Return response => fetch_many_from cfg urls' (results ++ [Some response]) w1
      | ReturnNone => fetch_many_from cfg urls' (results ++ [None]) w1
      | Raise e =>
          if is_Exception e then fetch_many_from cfg urls' (results ++ [None]) w1
          else (Raise e, w1)
      | RaiseTypeError => fetch_many_from cfg urls' (results ++ [None]) w1
      end
  end.

(** [SmartScraper.fetch_many(urls)]. *)
Definition fetch_many (cfg : ScrapingConfig) (urls : list string) (w : World)
  : result (list (option Response)) exn * World :=
  fetch_many_from cfg urls [] w.

(** The outcomes of the calls [self.fetch(url)] that [fetch_many] makes,
    one per URL, and the entry [fetch_many] records for an outcome. *)
Fixpoint outcomes (cfg : ScrapingConfig) (urls : list string) (w : World)
  : list (result Response exn) :=
  match urls with
  | [] => []
  | url :: urls' =>
      let '(r, w1) := fetch cfg url w in r :: outcomes cfg urls' w1
  end.

Definition entry (r : result Response exn) : option Response :=
  match r with
  | Return response => Some response
  | _ => None
  end.

Definition caught (r : result Response exn) : bool :=
  match r with
  | Raise e => is_Exception e
  | _ => true
  end.

(** [SmartScraper.scrape(url)]: [Soup] is the parsed document and
    [BeautifulSoup] the parser, which may raise. *)
Context {Soup : Type}.
Variable BeautifulSoup : string -> exn + Soup.

Definition scrape (cfg : ScrapingConfig) (url : string) (w : World)
  : result Soup exn * World :=
  let '(r, w1) := fetch cfg url w in
  match r with
  | Return response =>
      match BeautifulSoup (content response) with
      | inr soup => (Return soup, w1)
      | inl e => (Raise e, w1)
      end
  | ReturnNone => (Raise AttributeError, w1)
  | Raise e => (Raise e, w1)
  | RaiseTypeError => (Raise TypeError, w1)
  end.

End Smart.

(** *** [SmartScraper.crawl] *)

Section Crawler.

(** [scrape] is [self.scrape(url)] in a world [W]: it returns the parsed
    page or raises.  [find_all_href] is
    [[link['href'] for link in soup.find_all('a', href=True)]];
    [urljoin] and [netloc] are [urllib.parse.urljoin] and
    [urlparse(url).netloc]. *)
Context {W Soup : Type}.
Variable scrape : string -> W -> (exn + Soup) * W.
Variable find_all_href : Soup -> list string.
Variable urljoin : string -> string -> string.
Variable netloc : string -> string.

(** The arguments of [crawl]. *)
Variable start_url : string.
Variable max_pages : Z.
Variable same_domain : bool.
Variable link_filter : option (string -> bool).

(** The local variables of [crawl], and three logs the proofs read:
    [fetched] lists the URLs handed to [self.scrape], [scraped] those whose
    page was appended to [results], [enqueued] those put into [to_visit];
    all in order of the event. *)
Record frontier : Type := mkFrontier {
  visited : gset string;
  to_visit : list string;
  results : list Soup;
  world : W;
  fetched : list string;
  scraped : list string;
  enqueued : list string
}.

Definition base_domain : string := netloc start_url.

Definition rejected (full_url : string) : bool :=
  (same_domain && negb (String.eqb (netloc full_url) base_domain))
  || match link_filter with
     | Some keep => negb (keep full_url)
     | None => false
     end.

(** The loop [for link in soup.find_all('a', href=True)] on the page of
    [url]: [queue] receives the appended URLs. *)
Fixpoint follow (url : string) (seen : gset string) (hrefs : list string)
  (queue : list string) : list string :=
  match hrefs with
  | [] => queue
  | href :: more =>
      let full_url := urljoin url href in
      if rejected full_url then follow url seen more queue
      else if decide (full_url ∈ seen) then follow url seen more queue
      else follow url seen more (queue ++ [full_url])
  end.

(** One pass through the body of the [while] loop.  [except Exception]
    lets through an exception that is no [Exception], which ends the
    crawl. *)
Definition crawl_body (st : frontier) : exn + frontier :=
  match to_visit st with
  | [] => inl IndexError
  | url :: rest =>
      if decide (url ∈ visited st) then
        inr (mkFrontier (visited st) rest (results st) (world st)
               (fetched st) (scraped st) (enqueued st))
      else
        match scrape url (world st) with
        | (inr soup, w1) =>
            let seen := {[url]} ∪ visited st in
            inr (mkFrontier seen
                   (follow url seen (find_all_href soup) rest)
                   (results st ++ [soup]) w1
                   (fetched st ++ [url]) (scraped st ++ [url])
                   (follow url seen (find_all_href soup) (enqueued st)))
        | (inl e, w1) =>
            if is_Exception e then
              inr (mkFrontier (visited st) rest (results st) w1
                     (fetched st ++ [url]) (scraped st) (enqueued st))
            else inl e
        end
  end.

(** [while to_visit and len(visited) < max_pages]. *)
Definition running (st : frontier) : bool :=
  match to_visit st with
  | [] => false
  | _ :: _ => (Z.of_nat (size (visited st)) <? max_pages)%Z
  end.

(** The [while] loop; [None] when [fuel] passes did not finish it. *)
Fixpoint crawl_loop (fuel : nat) (st : frontier) : option (exn + frontier) :=
  if running st then
    match fuel with
    | O => None
    | S fuel' =>
        match crawl_body st with
        | inr st' => crawl_loop fuel' st'
        | inl e => Some (inl e)
        end
    end
  else Some (inr st).

Definition crawl_start (w : W) : frontier :=
  mkFrontier ∅ [start_url] [] w [] [] [start_url].

(** The states the variables of [crawl] go through, between passes of the
    loop. *)
Inductive reachable (w : W) : frontier -> Prop :=
| reach_start : reachable w (crawl_start w)
| reach_pass (st st' : frontier) :
    reachable w st -> running st = true -> crawl_body st = inr st' ->
    reachable w st'.

(** The bookkeeping of [visited] and [results]: the pages in [results] are
    those of the URLs in [scraped], one page per URL, and [visited] is the
    set of these URLs. *)
Definition tidy (st : frontier) : Prop :=
  NoDup (scraped st) /\ visited st = list_to_set (scraped st)
  /\ length (results st) = length (scraped st).

(** [SmartScraper.crawl(start_url, max_pages, same_domain, link_filter)]:
    the final state of its variables, or the exception that ended it. *)
Definition crawl_run (fuel : nat) (w : W) : option (exn + frontier) :=
  crawl_loop fuel (crawl_start w).

(** What [crawl] returns. *)
Definition crawl (fuel : nat) (w : W) : option (result (list Soup) exn) :=
  match crawl_run fuel w with
  | Some (inr st) => Some (Return (results st))
  | Some (inl e) => Some (Raise e)
  | None => None
  end.

End Crawler.

Arguments frontier : clear implicits.

(** [self.scrape] as [crawl] calls it. *)
Definition scrape_outcome {Soup : Type} (r : result Soup exn) : exn + Soup :=
  match r with
  | Return soup => inr soup
  | ReturnNone => inl AttributeError
  | Raise e => inl e
  | RaiseTypeError => inl TypeError
  end.

(** [SmartScraper.crawl]: the crawl loop over [SmartScraper.scrape]. *)
Definition smart_crawl {Soup : Type}
  (md5 : string -> string) (validators_url : string -> bool)
  (scheme netloc : string -> string) (session_get : nat -> string -> exn + Response)
  (random_draw : nat -> Q) (BeautifulSoup : string -> exn + Soup)
  (find_all_href : Soup -> list string) (urljoin : string -> string -> string)
  (cfg : ScrapingConfig) (start_url : string) (max_pages : Z) (same_domain : bool)
  (link_filter : option (string -> bool)) (fuel : nat) (w : World)
  : option (result (list Soup) exn) :=
  crawl
    (fun url w0 =>
       let '(r, w1) := scrape md5 validators_url scheme netloc session_get random_draw
                         BeautifulSoup cfg url w0 in
       (scrape_outcome r, w1))
    find_all_href urljoin netloc start_url max_pages same_domain link_filter fuel w.

(** *** [AsyncScraper] *)

Section Async.

Variable validators_url : string -> bool.
Variable scheme : string -> string.
Variable netloc : string -> string.

(** The outcome of [self.session.get(url)] at the [k]-th attempt of the
    task number [i] of a batch. *)
Variable async_get : nat -> string -> nat -> exn + Response.

(** [aiohttp.ClientResponse.raise_for_status()], after the library's
    documentation: an error for every status from 400 on. *)
Definition aiohttp_raise_for_status (r : Response) : option exn :=
  if (400 <=? status_code r)%Z then Some (HTTPError (status_code r)) else None.

(** The body of the [try] in [AsyncScraper.fetch]; the state is the
    number of attempts the task has made. *)
Definition attempt_once (i : nat) (url : string) (k : nat) : (exn + Response) * nat :=
  (match async_get i url k with
   | inr response =>
       match aiohttp_raise_for_status response with
       | Some e => inl e
       | None => inr response
       end
   | inl e => inl e
   end, S k).

(** [AsyncScraper.fetch(url)] as the task number [i]. *)
Definition async_fetch (max_retries_cfg : Z) (i : nat) (url : string)
  : Retry.run Response exn nat :=
  match validate validators_url scheme netloc url with
  | Some e => Retry.mkRun (Raise e) [] [] 0%nat
  | None =>
      Retry.async_retry (attempt_once i url) (fun _ k => k) is_Exception
        max_retries_cfg 0%nat
  end.

(** An entry of the list [asyncio.gather]
    returns: what the task returned, or the exception it raised. *)
Inductive gathered : Type :=
| GResponse (r : Response)
| GNone
| GException (e : exn).

Definition gather_entry (r : result Response exn) : gathered :=
  match r with
  | Return response => GResponse response
  | ReturnNone => GNone
  | Raise e => GException e
  | RaiseTypeError => GException TypeError
  end.

Fixpoint gather_from (max_retries_cfg : Z) (i : nat) (urls : list string)
  : list gathered :=
  match urls with
  | [] => []
  | url :: urls' =>
      gather_entry (Retry.res (async_fetch max_retries_cfg i url))
        :: gather_from max_retries_cfg (S i) urls'
  end.

(** [isinstance(result, Exception)]. *)
Definition isinstance_Exception (g : gathered) : bool :=
  match g with
  | GException e => is_Exception e
  | _ => false
  end.

(** The loop of [AsyncScraper.fetch_many] over [zip(urls, results)]. *)
Fixpoint valid_results (entries : list (string * gathered)) (acc : list gathered)
  : list gathered :=
  match entries with
  | [] => acc
  | (url, entry) :: more =>
      if isinstance_Exception entry then valid_results more acc
      else valid_results more (acc ++ [entry])
  end.

(** [AsyncScraper.fetch_many(urls)]. *)
Definition async_fetch_many (max_retries_cfg : Z) (urls : list string)
  : list gathered :=
  valid_results (zip urls (gather_from max_retries_cfg 0 urls)) [].

End Async.

End Scraper.

(* ===================================================================== *)
(** ** Small worlds to run the code in *)
(* ===================================================================== *)

Module Scenario.

Import Scraper.

(** A function that fails at every call, in a world that counts the
    calls. *)
Definition always_failing (w : nat) : (string + unit) * nat :=
  (inl "boom", S w).

(** A web of pages: a page is the list of its links, a URL without a page
    fails to load. *)
Definition web (pages : string -> option (list string)) (url : string) (w : unit)
  : (exn + list string) * unit :=
  (match pages url with
   | Some hrefs => inr hrefs
   | None => inl (RequestException 0)
   end, w).

Definition S_url : string := "https://a.example/".
Definition B_url : string := "https://a.example/b".
Definition C_url : string := "https://a.example/c".


(** The start page links to B twice; B has no links. *)
Definition twice_pages (url : string) : option (list string) :=
  if String.eqb url S_url then Some [B_url; B_url]
  else if String.eqb url B_url then Some []
  else None.

(** The start page links to B twice; B fails to load. *)
Definition broken_pages (url : string) : option (list string) :=
  if String.eqb url S_url then Some [B_url; B_url]
  else None.

(** [crawl(S_url, max_pages)] over a web of pages, with absolute links on
    one domain. *)
Definition crawl_web (pages : string -> option (list string)) (max_pages : Z)
  (fuel : nat) : option (exn + frontier unit (list string)) :=
  crawl_run (web pages) (fun hrefs => hrefs) (fun _ href => href)
    (fun _ => "a.example") S_url max_pages true None fuel tt.

(** The variables of a crawl that ended without an exception. *)
Definition finished (r : option (exn + frontier unit (list string)))
  : option (frontier unit (list string)) :=
  match r with
  | Some (inr st) => Some st
  | _ => None
  end.

(** The first pass of the loop of [crawl(S_url)] over a web of pages, and
    the queue it leaves. *)
Definition first_pass (pages : string -> option (list string))
  : exn + frontier unit (list string) :=
  crawl_body (web pages) (fun hrefs => hrefs) (fun _ href => href)
    (fun _ => "a.example") S_url true None (crawl_start S_url tt).

Definition queue_after (r : exn + frontier unit (list string)) : list string :=
  match r with
  | inr st => to_visit st
  | inl _ => []
  end.

(** The variables of [crawl(S_url)] once the start page, which links to B
    twice, has been scraped. *)
Definition start_scraped : frontier unit (list string) :=
  mkFrontier {[S_url]} [B_url; B_url] [[B_url; B_url]] tt [S_url] [S_url]
    [S_url; B_url; B_url].

(** A network for [SmartScraper.fetch]: every request is answered with the
    status [status]. *)
Definition answering (status : Z) (n : nat) (url : string) : exn + Response :=
  inr (mkResponse status "").

(** A network in which the requests for [bad] fail and all others are
    answered with 200 and the URL as content. *)
Definition failing_for (bad : string) (n : nat) (url : string) : exn + Response :=
  if String.eqb url bad then inl (RequestException 0) else inr (mkResponse 200 url).

Definition caching : ScrapingConfig := mkConfig (1%Q, 3%Q) 3 true 3600.
Definition plain : ScrapingConfig := mkConfig (1%Q, 3%Q) 3 false 3600.

(** [SmartScraper.fetch] and [fetch_many] with the identity for [md5],
    every URL valid, and every random draw 0. *)
Definition fetch_in (net : nat -> string -> exn + Response) (cfg : ScrapingConfig)
  (url : string) (w : World) : result Response exn * World :=
  fetch (fun s => s) (fun _ => true) (fun _ => "https") (fun _ => "a.example")
    net (fun _ => 0%Q) cfg url w.

Definition fetch_many_in (net : nat -> string -> exn + Response) (cfg : ScrapingConfig)
  (urls : list string) (w : World) : result (list (option Response)) exn * World :=
  fetch_many (fun s => s) (fun _ => true) (fun _ => "https") (fun _ => "a.example")
    net (fun _ => 0%Q) cfg urls w.

(** The same network for the tasks of [AsyncScraper.fetch_many]. *)
Definition async_fetch_many_in (bad : string) (urls : list string) : list gathered :=
  async_fetch_many (fun _ => true) (fun _ => "https") (fun _ => "a.example")
    (fun _ url k => failing_for bad k url) 3 urls.

End Scenario.

(* ===================================================================== *)
(** ** middleware/rate_limiter.py: accounting, and the sliding window *)
(* ===================================================================== *)

Module Accounting.

Import RateLimiter.
Local Open Scope Q_scope.





End Accounting.

Module SlidingWindow.

Local Open Scope Q_scope.

(** [class SlidingWindowRateLimiter]: [requests] is the deque of the
    time stamps of the accepted requests, oldest first. *)
Record SlidingWindowRateLimiter : Type := mkLimiter {
  max_requests : Z;
  window_seconds : Z;
  requests : list Q
}.

(** [SlidingWindowRateLimiter.__init__(max_requests, window_seconds)]. *)
Definition window_init (max_requests_arg window_arg : Z) : SlidingWindowRateLimiter :=
  mkLimiter max_requests_arg window_arg [].

(** The loop of [_clean_old_requests]:
    [while self.requests and self.requests[0] < cutoff: popleft()]. *)
Fixpoint popleft_old (cutoff : Q) (stamps : list Q) : list Q :=
  match stamps with
  | [] => []
  | oldest :: newer =>
      if Qle_bool cutoff oldest then stamps else popleft_old cutoff newer
  end.

(** [SlidingWindowRateLimiter._clean_old_requests], called when
    [time.time()] reads [now]. *)
Definition _clean_old_requests (now : Q) (l : SlidingWindowRateLimiter)
  : SlidingWindowRateLimiter :=
  let cutoff := now - inject_Z (window_seconds l) in
  mkLimiter (max_requests l) (window_seconds l) (popleft_old cutoff (requests l)).

(** How one pass through the [while True] loop of [acquire] ends: with
    [return True], with [return False], with a wait time to sleep before
    the next pass, or with the [IndexError] of [self.requests[0]] on an
    empty deque. *)
Inductive pass_result : Type :=
| Granted
| Denied
| Wait (wait_time : Q)
| RaisedIndexError.

(** One pass through the loop of [acquire(blocking)].  [now] is the clock
    reading of [_clean_old_requests], [later] the next reading, taken for
    the time stamp or for the wait time. *)
Definition pass (blocking : bool) (now later : Q) (l : SlidingWindowRateLimiter)
  : pass_result * SlidingWindowRateLimiter :=
  let l1 := _clean_old_requests now l in
  if (Z.of_nat (length (requests l1)) <? max_requests l1)%Z then
    (Granted, mkLimiter (max_requests l1) (window_seconds l1) (requests l1 ++ [later]))
  else if negb blocking then (Denied, l1)
  else
    match requests l1 with
    | oldest :: _ => (Wait (oldest + inject_Z (window_seconds l1) - later), l1)
    | [] => (RaisedIndexError, l1)
    end.

(** The clock readings of one pass, and whether the call is blocking. *)
Record reading : Type := mkReading {
  blocking : bool;
  now : Q;
  later : Q
}.

(** A run of passes, of one call of [acquire] or of many: the outcome of
    each pass, the limiter at the end, and the log of all the time stamps
    ever accepted. *)
Fixpoint passes (rs : list reading) (l : SlidingWindowRateLimiter) (accepted : list Q)
  : list pass_result * SlidingWindowRateLimiter * list Q :=
  match rs with
  | [] => ([], l, accepted)
  | r :: rs' =>
      let '(out, l1) := pass (blocking r) (now r) (later r) l in
      let accepted1 :=
        match out with
        | Granted => accepted ++ [later r]
        | _ => accepted
        end in
      let '(outs, l2, accepted2) := passes rs' l1 accepted1 in
      (out :: outs, l2, accepted2)
  end.

(** The clock does not run backwards through the readings of a run:
    every reading is at or after [from]. *)
Fixpoint monotone (from : Q) (rs : list reading) : Prop :=
  match rs with
  | [] => True
  | r :: rs' => from <= now r /\ now r <= later r /\ monotone (later r) rs'
  end.

(** The time stamps at or after [cutoff]. *)
Definition since (cutoff : Q) (stamps : list Q) : list Q :=
  List.filter (fun stamp => Qle_bool cutoff stamp) stamps.

(** What a run of passes keeps true: the deque holds the accepted stamps
    from some cutoff on, in time order, none of them in the future, and
    no more of them than [max_requests]. *)
Definition kept (mx w : Z) (from : Q) (l : SlidingWindowRateLimiter)
  (accepted : list Q) : Prop :=
  max_requests l = mx /\ window_seconds l = w
  /\ StronglySorted Qle accepted
  /\ Forall (fun x => x <= from) accepted
  /\ (Z.of_nat (length (requests l)) <= Z.max 0 mx)%Z
  /\ exists c, c <= from - inject_Z w /\ requests l = since c accepted.

(** [acquire(blocking=True)]: passes until one ends the call, sleeping the
    wait time between them when it is positive.  [readings k] are the
    clock readings of the pass number [k]; [None] when [fuel] passes did
    not end the call. *)
Fixpoint acquire_blocking (fuel : nat) (k : nat) (readings : nat -> Q * Q)
  (l : SlidingWindowRateLimiter) : option (pass_result * SlidingWindowRateLimiter) :=
  match fuel with
  | O => None
  | S fuel' =>
      match pass true (fst (readings k)) (snd (readings k)) l with
      | (Wait _, l1) => acquire_blocking fuel' (S k) readings l1
      | done => Some done
      end
  end.

End SlidingWindow.

(* ===================================================================== *)
(** ** middleware/retry.py: the decorator *)
(* ===================================================================== *)

Module Decorator.

Local Open Scope Q_scope.

(** The seconds slept over a list of sleeps. *)
Definition total (delays : list Q) : Q := fold_right Qplus 0 delays.

(** The sleeps of the retry loop of [AsyncScraper.fetch]:
    [2 ** attempt] seconds after the attempt number [attempt]. *)
Definition doubling (count : nat) : list Q :=
  (fun attempt => inject_Z (2 ^ Z.of_nat attempt)) <$> seq 0 count.

Section Retry.

Context {T E W : Type}.
Variable func : W -> (E + T) * W.
Variable random : W -> Q * W.
Variable sleep : Q -> W -> W.

(** A call of the function [retry(max_retries, delay, exceptions)] wraps:
    a fresh [RetryManager] with [base_delay=delay] and the defaults
    [max_delay=60.0] and [exponential_base=2.0] executes it. *)
Definition retry (max_retries_arg : Z) (delay : Q) (exceptions : E -> bool) (w : W)
  : Retry.run T E W :=
  Retry.execute func random sleep
    (Retry.mkRetryManager max_retries_arg delay 60 2 exceptions) w.

End Retry.

End Decorator.

(* ===================================================================== *)
(** ** middleware/cache.py: sequences of calls *)
(* ===================================================================== *)

Module CacheCalls.

Import Cache.
Local Open Scope Q_scope.

Section Calls.

Context {V : Type}.
Variable md5 : string -> string.

(** A call of a method of [CacheManager]. *)
Inductive call : Type :=
| CallHas (key : string)
| CallGet (key : string)
| CallSet (key : string) (value : V) (ttl_arg : option Z)
| CallDelete (key : string)
| CallClear.

(** The cache after a call made at clock reading [time].  A [set] that
    raises leaves the cache to the caller as it was. *)
Definition apply_call (c : call) (time : Q) (m : CacheManager V) : CacheManager V :=
  match c with
  | CallHas _ => m
  | CallGet key => snd (get md5 key time m)
  | CallSet key value ttl_arg =>
      match set md5 key value ttl_arg time m with
      | Some m' => m'
      | None => m
      end
  | CallDelete key => delete md5 key time m
  | CallClear => clear m
  end.

Definition apply_calls (calls : list (call * Q)) (m : CacheManager V) : CacheManager V :=
  fold_left (fun m c => apply_call (fst c) (snd c) m) calls m.

(** The digests under which a cache holds entries, expired or not. *)
Definition held_keys (m : CacheManager V) : list string :=
  match m with
  | Memory c => fst <$> links c
  | Disk c => fst <$> map_to_list c
  end.

End Calls.

Arguments call : clear implicits.

End CacheCalls.

(* ===================================================================== *)
(** ** core/scraper.py and core/async_scraper.py: [post] *)
(* ===================================================================== *)

Module Poster.

Import Scraper.
Local Open Scope Q_scope.

Section Post.

(** As for [fetch], with the outcome of the [n]-th [session.post] of the
    run in place of [session.get]. *)
Variable validators_url : string -> bool.
Variable scheme : string -> string.
Variable netloc : string -> string.
Variable session_post : nat -> string -> exn + Response.
Variable random_draw : nat -> Q.

(** The closure [_do_request] of [post]. *)
Definition _do_post (url : string) (w : World) : (exn + Response) * World :=
  (session_post (requests_sent w) url,
   mkWorld (clock w) (cache w) (S (requests_sent w)) (draws w)).

(** [SmartScraper.post(url, data, json_data)]. *)
Definition post (cfg : ScrapingConfig) (url : string) (w : World)
  : result Response exn * World :=
  match validate validators_url scheme netloc url with
  | Some e => (Raise e, w)
  | None =>
      let w1 := _apply_delay random_draw cfg w in
      let r := Retry.execute (_do_post url) (random random_draw) sleep
                 (retry_manager cfg) w1 in
      (Retry.res r, Retry.world r)
  end.

(** [AsyncScraper.post(url, data, json_data)]: one request, whose outcome
    is [answer], and [raise_for_status] on its response. *)
Definition async_post (answer : exn + Response) (url : string) : result Response exn :=
  match validate validators_url scheme netloc url with
  | Some e => Raise e
  | None =>
      match answer with
      | inl e => Raise e
      | inr response =>
          match aiohttp_raise_for_status response with
          | Some e => Raise e
          | None => Return response
          end
      end
  end.

End Post.

End Poster.

(* ===================================================================== *)
(** ** core/browser.py and core/playwright_scraper.py: [infinite_scroll] *)
(* ===================================================================== *)

Module Scrolling.

(** The page as the loop sees it: [height k] is what the [k]-th reading of
    [document.body.scrollHeight] returns, the readings counted from 0
    over the whole call. *)

(** The loop of [SeleniumScraper.infinite_scroll] with [todo] iterations
    left, after [reads] readings: the number of times it scrolls. *)
Fixpoint selenium_loop (height : nat -> Z) (todo reads : nat) (last_height : Z) : nat :=
  match todo with
  | O => O
  | S todo' =>
      let new_height := height reads in
      if (new_height =? last_height)%Z then 1%nat
      else S (selenium_loop height todo' (S reads) new_height)
  end.

(** [SeleniumScraper.infinite_scroll(scroll_pause, max_scrolls)]. *)
Definition selenium_infinite_scroll (height : nat -> Z) (max_scrolls : Z) : nat :=
  selenium_loop height (Z.to_nat max_scrolls) 1 (height 0%nat).

(** The loop of [PlaywrightScraper.infinite_scroll]: every iteration reads
    the height before and after its scroll. *)
Fixpoint playwright_loop (height : nat -> Z) (todo reads : nat) : nat :=
  match todo with
  | O => O
  | S todo' =>
      let previous_height := height reads in
      let new_height := height (S reads) in
      if (new_height =? previous_height)%Z then 1%nat
      else S (playwright_loop height todo' (S (S reads)))
  end.

(** [PlaywrightScraper.infinite_scroll(scroll_pause, max_scrolls)]. *)
Definition playwright_infinite_scroll (height : nat -> Z) (max_scrolls : Z) : nat :=
  playwright_loop height (Z.to_nat max_scrolls) 0.

End Scrolling.

(* ===================================================================== *)
(** ** utils/parsers.py: [HTMLParser.extract_table] *)
(* ===================================================================== *)

Module Parsers.

(** What [extract_table] reads off the element that [select_one] found:
    [th_texts] is [[th.get_text(strip=True) for th in table.find_all('th')]],
    and [trs] holds, for every row of [table.find_all('tr')], the texts of
    [row.find_all(['td', 'th'])]. *)
Record Table : Type := mkTable {
  th_texts : list string;
  trs : list (list string)
}.

(** The loop [for header, cell in zip(headers, cells)] filling
    [row_data]: a later cell replaces an earlier one under the same
    header. *)
Definition row_data (headers cells : list string) : gmap string string :=
  fold_left (fun data pair => <[fst pair := snd pair]> data) (zip headers cells) ∅.

(** The loop over [data_rows]. *)
Fixpoint table_rows (headers : list string) (data_rows : list (list string))
  : list (gmap string string) :=
  match data_rows with
  | [] => []
  | cells :: more =>
      if (length cells =? length headers)%nat
      then row_data headers cells :: table_rows headers more
      else table_rows headers more
  end.

(** [table.find_all('tr')[1:] if table.find_all('th') else
    table.find_all('tr')]. *)
Definition data_rows (table : Table) : list (list string) :=
  match th_texts table with
  | [] => trs table
  | _ :: _ => List.tl (trs table)
  end.

(** [HTMLParser.extract_table(selector, headers)]; [table] is what
    [self.soup.select_one(selector)] returns. *)
Definition extract_table (table : option Table) (headers : option (list string))
  : list (gmap string string) :=
  match table with
  | None => []
  | Some table =>
      let headers :=
        match headers with
        | None => th_texts table
        | Some given => given
        end in
      table_rows headers (data_rows table)
  end.

End Parsers.


(* ===================================================================== *)
(** * Properties *)
(* ===================================================================== *)

Ltac conjs := repeat match goal with |- _ /\ _ => split end.

(* ===================================================================== *)
(** ** The token bucket and the adaptive limiter *)
(* ===================================================================== *)

Module RateLimiterFacts.
Import RateLimiter.
Local Open Scope Q_scope.















(** With the default rates, three responses 429 leave a bucket that holds
    no token at all, and the next [acquire()] overdraws it. *)
Example adaptive_bucket_overdrawn :
  let a := report_many 429 (fun _ => 0) 3 (arl_init 2 (1 # 10) 10 0) in
  capacity (arl_bucket a) = 0%Z /\
  tokens (bucket (snd (arl_acquire 0 0 a))) == -1.
Proof. split; vm_compute; reflexivity. Qed.

End RateLimiterFacts.

(* ===================================================================== *)
(** ** The retry manager *)
(* ===================================================================== *)

Module RetryFacts.
Import Retry Scenario.
Local Open Scope Q_scope.

Section Delay.
Context {E : Type}.

Lemma backoff_nonneg (m : RetryManager E) (n : Z) :
  0 <= base_delay m -> 0 <= exponential_base m -> 0 <= max_delay m ->
  0 <= backoff m n.
Proof.
  intros Hb He Hm. unfold backoff.
  assert (Hp : 0 <= exponential_base m ^ n) by now apply Qpower_0_le.
  assert (Hbp : 0 <= base_delay m * exponential_base m ^ n)
    by now apply Qmult_le_0_compat.
  destruct (Q.min_spec (base_delay m * exponential_base m ^ n) (max_delay m))
    as [[_ Heq]|[_ Heq]]; rewrite Heq; assumption.
Qed.

End Delay.


Section Attempts.
Context {T E W : Type}.
Variable func : W -> (E + T) * W.
Variable random : W -> Q * W.
Variable sleep : Q -> W -> W.
Variable is_Exception : E -> bool.

Lemma final_after_call (o : E + T) (r : run T E W) :
  final_attempt (after_call o r)
  = match final_attempt r with Some y => Some y | None => Some o end.
Proof. unfold final_attempt; simpl. apply last_cons. Qed.

Lemma final_none (r : run T E W) :
  final_attempt r = None -> invocations r = [].
Proof. unfold final_attempt. apply last_None. Qed.

(** The loop of [execute] from any iteration on: it calls [func] at most
    once per remaining iteration, raises what the last call raised, and
    without any call raises [last_exception]. *)
Lemma execute_from_spec (m : RetryManager E) (todo : nat) :
  forall (attempt : Z) (last_exception : option E) (w : W),
  let r := execute_from func random sleep m todo attempt last_exception w in
  (length (invocations r) <= todo)%nat
  /\ (forall e, final_attempt r = Some (inl e) -> res r = Raise e)
  /\ (invocations r = [] -> res r = raise_last last_exception).
Proof.
  induction todo as [|todo IH]; intros attempt last_exception w; simpl.
  - conjs; [lia | discriminate | reflexivity].
  - destruct (func w) as [[e|v] w1]; simpl.
    + destruct (retry_exceptions m e); simpl.
      * destruct (attempt <? max_retries m)%Z.
        -- destruct (random w1) as [u w2].
           specialize (IH (attempt + 1)%Z (Some e)
                          (sleep (calculate_delay m attempt u) w2)).
           destruct IH as (Hlen & Hlast & Hnone).
           rewrite final_after_call. simpl in *.
           conjs; [lia | | discriminate].
           intros e'. unfold final_attempt at 1; simpl.
           destruct (last (invocations _)) as [y|] eqn:Hl.
           ++ intros [= ->]. now apply Hlast.
           ++ intros [= <-]. apply last_None in Hl. now apply Hnone.
        -- specialize (IH (attempt + 1)%Z (Some e) w1).
           destruct IH as (Hlen & Hlast & Hnone).
           rewrite final_after_call. simpl in *.
           conjs; [lia | | discriminate].
           intros e'.
           destruct (final_attempt _) as [y|] eqn:Hl.
           ++ intros [= ->]. now apply Hlast.
           ++ intros [= <-]. apply final_none in Hl. now apply Hnone.
      * conjs; [lia | | discriminate]. unfold final_attempt; simpl. now intros e' [= <-].
    + conjs; [lia | | discriminate]. unfold final_attempt; simpl. discriminate.
Qed.

(** The loop of [AsyncScraper.fetch] from any iteration on. *)
Lemma async_attempts_spec (cfg : Z) (todo : nat) :
  forall (attempt : Z) (w : W),
  (Z.of_nat todo + attempt = cfg)%Z ->
  let r := async_attempts func sleep is_Exception cfg todo attempt w in
  (length (invocations r) <= todo)%nat
  /\ (forall e, final_attempt r = Some (inl e) -> res r = Raise e)
  /\ (invocations r = [] -> todo = 0%nat).
Proof.
  induction todo as [|todo IH]; intros attempt w Hsum; simpl.
  - conjs; [lia | discriminate | reflexivity].
  - destruct (func w) as [[e|v] w1]; simpl.
    + destruct (is_Exception e); simpl.
      * destruct (attempt =? cfg - 1)%Z eqn:Hfinal; simpl.
        -- conjs; [lia | | discriminate].
           unfold final_attempt; simpl. now intros e' [= <-].
        -- apply Z.eqb_neq in Hfinal.
           specialize (IH (attempt + 1)%Z (sleep (inject_Z (2 ^ attempt)) w1)).
           destruct IH as (Hlen & Hlast & Hnone); [lia|].
           rewrite final_after_call. simpl in *.
           conjs; [lia | | discriminate].
           intros e'.
           destruct (final_attempt _) as [y|] eqn:Hl.
           ++ intros [= ->]. now apply Hlast.
           ++ apply final_none in Hl. apply Hnone in Hl. lia.
      * conjs; [lia | | discriminate].
        unfold final_attempt; simpl. now intros e' [= <-].
    + conjs; [lia | | discriminate]. unfold final_attempt; simpl. discriminate.
Qed.


(** The loop of [AsyncScraper.fetch] makes one attempt fewer than
    [execute]: never more than [max_retries], and none at all, returning
    [None], when [max_retries] is 0. *)
Lemma async_retry_attempts (cfg : Z) (w : W) :
  (0 <= cfg)%Z ->
  (Z.of_nat (length (invocations (async_retry func sleep is_Exception cfg w))) <= cfg)%Z.
Proof.
  intros Hcfg.
  destruct (async_attempts_spec cfg (Z.to_nat cfg) 0%Z w) as (Hlen & _ & _); [lia|].
  unfold async_retry. lia.
Qed.

Lemma async_retry_zero (w : W) :
  async_retry func sleep is_Exception 0 w = mkRun ReturnNone [] [] w.
Proof. reflexivity. Qed.


(** What [func], [random] and [sleep] leave alone, [execute] leaves
    alone. *)
Lemma execute_from_keeps {A : Type} (f : W -> A) (m : RetryManager E) (todo : nat) :
  (forall w, f (snd (func w)) = f w) ->
  (forall w, f (snd (random w)) = f w) ->
  (forall d w, f (sleep d w) = f w) ->
  forall attempt last_exception w,
    f (world (execute_from func random sleep m todo attempt last_exception w)) = f w.
Proof.
  intros Hfunc Hrandom Hsleep.
  induction todo as [|todo IH]; intros attempt last_exception w; simpl; [reflexivity|].
  specialize (Hfunc w). destruct (func w) as [[e|v] w1]; simpl in *; [|exact Hfunc].
  destruct (retry_exceptions m e); simpl; [|exact Hfunc].
  destruct (attempt <? max_retries m)%Z.
  - specialize (Hrandom w1). destruct (random w1) as [u w2]; simpl in *.
    rewrite IH, Hsleep. congruence.
  - simpl. rewrite IH. exact Hfunc.
Qed.
End Attempts.


Example execute_exhausted :
  let m := mkRetryManager 3 1 60 2 (fun _ : string => true) in
  let r := execute always_failing (fun w => (0, w)) (fun _ w => w) m 0%nat in
  length (invocations r) = 4%nat /\ res r = Raise "boom"%string.
Proof. split; reflexivity. Qed.

Example async_exhausted :
  let a := async_retry always_failing (fun _ w => w) (fun _ => true) 3 0%nat in
  length (invocations a) = 3%nat /\ res a = Raise "boom"%string.
Proof. split; reflexivity. Qed.
End RetryFacts.

(* ===================================================================== *)
(** ** The cache manager *)
(* ===================================================================== *)

Module CacheFacts.
Import Cache.
Local Open Scope Q_scope.

Section Facts.
Context {V : Type}.
Variable md5 : string -> string.

Lemma has_key_refl (key : string) (entry : V * Q) : has_key key (key, entry) = true.
Proof. unfold has_key; simpl. apply String.eqb_refl. Qed.

Lemma find_without (key : string) (l : list (string * (V * Q))) :
  List.find (has_key key) (without key l) = None.
Proof.
  induction l as [|item l IH]; simpl; [reflexivity|].
  destruct (has_key key item) eqn:Hk; simpl; [exact IH|].
  now rewrite Hk.
Qed.

Lemma find_skipn_none {A} (f : A -> bool) (n : nat) (l : list A) :
  List.find f l = None -> List.find f (List.skipn n l) = None.
Proof.
  revert l. induction n as [|n IH]; intros [|x l]; simpl; auto.
  destruct (f x); [discriminate|]. apply IH.
Qed.

Lemma find_app_none {A} (f : A -> bool) (l l' : list A) :
  List.find f l = None -> List.find f (l ++ l') = List.find f l'.
Proof.
  induction l as [|x l IH]; simpl; [reflexivity|].
  destruct (f x); [discriminate|]. exact IH.
Qed.

Lemma not_expired_iff (time expires : Q) (key : string) (value : V) :
  negb (expired time (key, (value, expires))) = true <-> time < expires.
Proof.
  unfold expired; simpl. rewrite negb_true_iff. split.
  - intros H. apply Qnot_le_lt. intros Hle. apply Qle_bool_iff in Hle. congruence.
  - intros H. destruct (Qle_bool expires time) eqn:Hb; [|reflexivity].
    apply Qle_bool_iff in Hb. lra.
Qed.

(** After [cache[key] = value] the key is found with the expiry
    [time + ttl] of the constructor. *)
Lemma ttl_setitem_link (key : string) (value : V) (time : Q) (c c' : TTLCache V) :
  ttl_setitem key value time c = Some c' ->
  getlink key c' = Some (key, (value, time + inject_Z (ttl c))).
Proof.
  unfold ttl_setitem, getlink.
  destruct (maxsize c <? 1)%Z; [discriminate|].
  intros [= <-]; simpl.
  rewrite find_app_none.
  - simpl. now rewrite has_key_refl.
  - destruct (List.find (has_key key) (List.filter _ (links c))) eqn:Hfind.
    + apply find_without.
    + now apply find_skipn_none.
Qed.

(** C10.  With the memory backend, [set(key, value, ttl)] does the same
    for every [ttl] argument, and the entry it stores is served exactly
    until the time-to-live given to the constructor has passed.  With the
    disk backend the entry is served exactly until the [ttl] of the call
    has passed. *)
Theorem memory_set_ignores_ttl (key : string) (value : V) (ttl_arg other_ttl : option Z)
  (time : Q) (c : TTLCache V) :
  (1 <= maxsize c)%Z ->
  set md5 key value ttl_arg time (Memory c) = set md5 key value other_ttl time (Memory c)
  /\ (exists m', set md5 key value ttl_arg time (Memory c) = Some m'
      /\ forall later,
           has md5 key later m' = true <-> later < time + inject_Z (ttl c))
  /\ (forall (d : DiskCache V) (seconds : Z) (later : Q),
        set md5 key value (Some seconds) time (Disk d)
        = Some (Disk (disk_set (md5 key) value (Some seconds) time d))
        /\ (has md5 key later (Disk (disk_set (md5 key) value (Some seconds) time d)) = true
            <-> later < time + inject_Z seconds)).
Proof.
  intros Hsize. conjs.
  - reflexivity.
  - unfold set.
    destruct (ttl_setitem (_make_key md5 key) value time c) as [c'|] eqn:Hset.
    + exists (Memory c'). split; [reflexivity|].
      intros later. simpl. unfold ttl_contains.
      rewrite (ttl_setitem_link _ _ _ _ _ Hset). apply not_expired_iff.
    + unfold ttl_setitem in Hset.
      destruct (maxsize c <? 1)%Z eqn:Hlt; [|discriminate].
      apply Z.ltb_lt in Hlt. lia.
  - intros d seconds later. split; [reflexivity|].
    unfold has, disk_contains, disk_set, _make_key, DiskCache in *.
    rewrite lookup_insert_eq. unfold live; cbn [snd fmap option_fmap option_map].
    rewrite negb_true_iff. split.
    + intros H. apply Qnot_le_lt. intros Hle. apply Qle_bool_iff in Hle. congruence.
    + intros H. destruct (Qle_bool _ later) eqn:Hb; [|reflexivity].
      apply Qle_bool_iff in Hb. lra.
Qed.




End Facts.

Lemma memory_set_ignores_ttl_witness :
  let c : TTLCache nat := mkTTLCache 1000 3600 [] in
  set id "k" 7%nat (Some 5%Z) 0 (Memory c) = set id "k" 7%nat None 0 (Memory c).
Proof.
  intros c.
  apply (memory_set_ignores_ttl id "k" 7%nat (Some 5%Z) None 0 c).
  simpl. lia.
Defined.

(** An entry stored through [set(key, value, ttl=5)] in the default memory
    cache is still served after 5 seconds, and until the 3600 seconds of
    the constructor have passed. *)
Example memory_entry_outlives_ttl_argument :
  let m := init_memory 1000 3600 in
  (has id "k" 100 <$> set id "k" 7%nat (Some 5%Z) 0 m) = Some true
  /\ (has id "k" 3600 <$> set id "k" 7%nat (Some 5%Z) 0 m) = Some false
  /\ (has id "k" 100 <$> set id "k" 7%nat (Some 5%Z) 0 init_disk) = Some false.
Proof. intros m. conjs; vm_compute; reflexivity. Qed.
End CacheFacts.

(* ===================================================================== *)
(** ** The crawler *)
(* ===================================================================== *)

Module CrawlerFacts.
Import Scraper.
Local Set Warnings "-clear-no-such-hyp".

Section Facts.
Context {W Soup : Type}.
Variable scrape : string -> W -> (exn + Soup) * W.
Variable find_all_href : Soup -> list string.
Variable urljoin : string -> string -> string.
Variable netloc : string -> string.
Variable start_url : string.
Variable max_pages : Z.
Variable same_domain : bool.
Variable link_filter : option (string -> bool).

Local Abbreviation follow := (follow urljoin netloc start_url same_domain link_filter).
Local Abbreviation crawl_body :=
  (crawl_body scrape find_all_href urljoin netloc start_url same_domain link_filter).
Local Abbreviation running := (running max_pages).
Local Abbreviation crawl_loop :=
  (crawl_loop scrape find_all_href urljoin netloc start_url max_pages same_domain
     link_filter).
Local Abbreviation reachable :=
  (reachable scrape find_all_href urljoin netloc start_url max_pages same_domain
     link_filter).
Local Abbreviation crawl_run :=
  (crawl_run scrape find_all_href urljoin netloc start_url max_pages same_domain
     link_filter).
Local Abbreviation crawl :=
  (crawl scrape find_all_href urljoin netloc start_url max_pages same_domain
     link_filter).

Lemma follow_app url seen hrefs : forall queue,
  follow url seen hrefs queue = queue ++ follow url seen hrefs [].
Proof.
  induction hrefs as [|href more IH]; intros queue; simpl.
  - now rewrite app_nil_r.
  - destruct (rejected _ _ _ _ _); [apply IH|].
    destruct (decide _); [apply IH|].
    rewrite (IH (queue ++ [urljoin url href])), (IH [urljoin url href]).
    now rewrite <- app_assoc.
Qed.

Lemma follow_unseen url seen hrefs u :
  u ∈ follow url seen hrefs [] -> u ∉ seen.
Proof.
  induction hrefs as [|href more IH]; simpl.
  - intros H. inversion H.
  - destruct (rejected _ _ _ _ _); [exact IH|].
    destruct (decide _) as [|Hnew]; [exact IH|].
    rewrite follow_app. simpl. intros H. apply elem_of_cons in H.
    destruct H as [->|H]; [exact Hnew | now apply IH].
Qed.

(** The three ways a pass of the loop goes on. *)
Lemma crawl_body_cases (st st' : frontier W Soup) :
  crawl_body st = inr st' ->
  exists url rest, to_visit st = url :: rest /\
    ((url ∈ visited st /\
      st' = mkFrontier (visited st) rest (results st) (world st)
              (fetched st) (scraped st) (enqueued st))
     \/ ((url ∉ visited st) /\ (exists soup w1,
          scrape url (world st) = (inr soup, w1) /\
          st' = mkFrontier ({[url]} ∪ visited st)
                  (rest ++ follow url ({[url]} ∪ visited st) (find_all_href soup) [])
                  (results st ++ [soup]) w1
                  (fetched st ++ [url]) (scraped st ++ [url])
                  (enqueued st ++ follow url ({[url]} ∪ visited st) (find_all_href soup) [])))
     \/ ((url ∉ visited st) /\ (exists e w1,
          scrape url (world st) = (inl e, w1) /\ is_Exception e = true /\
          st' = mkFrontier (visited st) rest (results st) w1
                  (fetched st ++ [url]) (scraped st) (enqueued st)))).
Proof.
  unfold Scraper.crawl_body.
  destruct (to_visit st) as [|url rest]; [discriminate|].
  intros H. exists url, rest. split; [reflexivity|].
  destruct (decide (url ∈ visited st)) as [Hin|Hout].
  - left. split; [exact Hin | congruence].
  - right. destruct (scrape url (world st)) as [[e|soup] w1].
    + right. split; [exact Hout|]. exists e, w1.
      destruct (is_Exception e); [|discriminate].
      conjs; try reflexivity. congruence.
    + left. split; [exact Hout|]. exists soup, w1. split; [reflexivity|].
      rewrite (follow_app _ _ _ rest), (follow_app _ _ _ (enqueued st)) in H.
      congruence.
Qed.

Lemma crawl_body_tidy st st' : tidy st -> crawl_body st = inr st' -> tidy st'.
Proof.
  intros (Hnd & Hset & Hlen) Hbody.
  destruct (crawl_body_cases st st' Hbody) as (url & rest & Hq & Hcase).
  destruct Hcase as [[Hin ->]|[(Hout & soup & w1 & Hs & ->)|(Hout & e & w1 & Hs & He & ->)]];
    unfold tidy; simpl; conjs; auto.
  - apply NoDup_app. conjs; [exact Hnd | | apply NoDup_singleton].
    intros x Hx Hx'. apply list_elem_of_singleton in Hx'. subst x.
    apply Hout. rewrite Hset. now apply elem_of_list_to_set.
  - rewrite list_to_set_app_L, <- Hset. simpl.
    rewrite (right_id_L ∅ (∪)). apply (comm_L (∪)).
  - rewrite !length_app. simpl. lia.
Qed.

Lemma reachable_tidy w st : reachable w st -> tidy st.
Proof.
  induction 1 as [|st st' _ IH _ Hbody].
  - unfold tidy; simpl. conjs; [constructor | set_solver | reflexivity].
  - now apply (crawl_body_tidy st st').
Qed.


Lemma crawl_loop_pass fuel st st' :
  running st = true -> crawl_body st = inr st' ->
  crawl_loop (S fuel) st = crawl_loop fuel st'.
Proof. intros Hr Hb. simpl. now rewrite Hr, Hb. Qed.





(** C3, as the code has it.  In every state a crawl goes through, each
    URL was added to [visited], and its page to [results], at most once.
    A pass of the loop never removes a URL from [visited], and the URLs
    it appends to the queue are checked against [visited] only: they are
    not in [visited], but may be pending in the queue already. *)
Theorem frontier_dedup (w : W) (st : frontier W Soup) :
  reachable w st ->
  (NoDup (scraped st) /\ visited st = list_to_set (scraped st)
   /\ length (results st) = length (scraped st))
  /\ (forall st', crawl_body st = inr st' ->
      visited st ⊆ visited st'
      /\ exists new, enqueued st' = enqueued st ++ new
                     /\ forall u, u ∈ new -> u ∉ visited st').
Proof.
  intros Hreach. split; [exact (reachable_tidy w st Hreach)|].
  intros st' Hbody.
  destruct (crawl_body_cases st st' Hbody) as (url & rest & Hq & Hcase).
  destruct Hcase as [[Hin ->]|[(Hout & soup & w1 & Hs & ->)|(Hout & e & w1 & Hs & He & ->)]];
    simpl.
  - split; [reflexivity|]. exists []. split; [now rewrite app_nil_r|].
    intros u Hu. inversion Hu.
  - split; [apply union_subseteq_r|].
    eexists. split; [reflexivity|]. intros u. apply follow_unseen.
  - split; [reflexivity|]. exists []. split; [now rewrite app_nil_r|].
    intros u Hu. inversion Hu.
Qed.

(** C9, as the code has it.  When [self.scrape(url)] raises an
    [Exception], the pass of the loop ends there and the crawl goes on with
    the rest of the queue; [visited] and [results] stay as they were, so
    the URL is not marked visited. *)
Theorem crawl_error_not_fatal (st : frontier W Soup) (url : string)
  (rest : list string) (e : exn) (w1 : W) (fuel : nat) :
  running st = true -> to_visit st = url :: rest -> url ∉ visited st ->
  scrape url (world st) = (inl e, w1) -> is_Exception e = true ->
  let st' := mkFrontier (visited st) rest (results st) w1
               (fetched st ++ [url]) (scraped st) (enqueued st) in
  crawl_body st = inr st'
  /\ crawl_loop (S fuel) st = crawl_loop fuel st'
  /\ url ∉ visited st'.
Proof.
  intros Hrun Hq Hout Hs He st'.
  assert (Hbody : crawl_body st = inr st').
  { unfold Scraper.crawl_body. rewrite Hq.
    destruct (decide (url ∈ visited st)); [contradiction|].
    now rewrite Hs, He. }
  conjs; [exact Hbody | now apply crawl_loop_pass | exact Hout].
Qed.

(** The URLs the link loop appends, read off the resolved links. *)
Lemma follow_links url seen hrefs :
  follow url seen hrefs []
  = List.filter
      (fun u => negb (rejected netloc start_url same_domain link_filter u)
                && negb (bool_decide (u ∈ seen)))
      (urljoin url <$> hrefs).
Proof.
  induction hrefs as [|href more IH]; simpl; [reflexivity|].
  destruct (rejected _ _ _ _ _); simpl; [exact IH|].
  destruct (decide (urljoin url href ∈ seen)) as [Hin|Hout].
  - rewrite bool_decide_eq_true_2 by exact Hin. exact IH.
  - rewrite bool_decide_eq_false_2 by exact Hout. simpl.
    rewrite follow_app, IH. reflexivity.
Qed.

End Facts.

Import Scenario.


Lemma frontier_dedup_witness :
  NoDup (scraped start_scraped).
Proof.
  apply (frontier_dedup (web twice_pages) (fun hrefs => hrefs) (fun _ href => href)
           (fun _ => "a.example"%string) S_url 3 true None tt start_scraped).
  apply (reach_pass _ _ _ _ _ _ _ _ _ (crawl_start S_url tt)).
  - apply reach_start.
  - reflexivity.
  - vm_compute. reflexivity.
Defined.

(** C3 fails where a page links to the same URL twice: after the first
    pass B is in the queue two times. *)
Lemma frontier_enqueues_twice :
  queue_after (first_pass twice_pages) = [B_url; B_url].
Proof. vm_compute. reflexivity. Qed.

Lemma crawl_error_not_fatal_witness :
  B_url ∉ visited
    (mkFrontier (visited start_scraped) [B_url] (results start_scraped) tt
       (fetched start_scraped ++ [B_url]) (scraped start_scraped)
       (enqueued start_scraped)).
Proof.
  apply (crawl_error_not_fatal (web broken_pages) (fun hrefs => hrefs)
           (fun _ href => href) (fun _ => "a.example"%string) S_url 3 true None
           start_scraped B_url [B_url] (RequestException 0) tt 0).
  - vm_compute. reflexivity.
  - reflexivity.
  - simpl. set_solver.
  - reflexivity.
  - reflexivity.
Defined.

(** C9 fails where the page that fails to load is in the queue twice: B is
    fetched two times and is not in [visited] when the crawl ends. *)
Lemma crawl_refetches_failed :
  (fun st => (bool_decide (B_url ∈ visited st), fetched st))
    <$> finished (crawl_web broken_pages 3 10)
  = Some (false, [S_url; B_url; B_url]).
Proof. vm_compute. reflexivity. Qed.

End CrawlerFacts.

(* ===================================================================== *)
(** ** The fetcher *)
(* ===================================================================== *)

Module FetcherFacts.
Import Scraper Scenario.

Section Facts.
Variable md5 : string -> string.
Variable validators_url : string -> bool.
Variable scheme : string -> string.
Variable netloc : string -> string.
Variable session_get : nat -> string -> exn + Response.
Variable random_draw : nat -> Q.

Local Abbreviation fetch :=
  (fetch md5 validators_url scheme netloc session_get random_draw).
Local Abbreviation fetch_many_from :=
  (fetch_many_from md5 validators_url scheme netloc session_get random_draw).
Local Abbreviation fetch_many :=
  (fetch_many md5 validators_url scheme netloc session_get random_draw).
Local Abbreviation outcomes :=
  (outcomes md5 validators_url scheme netloc session_get random_draw).

(** The retry loop of [fetch] does not touch the cache. *)
Lemma execute_keeps_cache (cfg : ScrapingConfig) (url : string) (w : World) :
  cache (Retry.world (Retry.execute (_do_request session_get url) (random random_draw)
                        sleep (retry_manager cfg) w))
  = cache w.
Proof.
  unfold Retry.execute.
  apply (RetryFacts.execute_from_keeps _ _ _ cache); reflexivity.
Qed.

Lemma delay_keeps_cache (cfg : ScrapingConfig) (w : World) :
  cache (_apply_delay random_draw cfg w) = cache w.
Proof. reflexivity. Qed.




Lemma fetch_many_from_spec (cfg : ScrapingConfig) (urls : list string) :
  forall (results : list (option Response)) (w : World),
  Forall (fun r => caught r = true) (outcomes cfg urls w) ->
  fst (fetch_many_from cfg urls results w)
  = Return (results ++ (entry <$> outcomes cfg urls w)).
Proof.
  induction urls as [|url urls IH]; intros results w; simpl.
  - intros _. now rewrite app_nil_r.
  - destruct (fetch cfg url w) as [r w1]. intros Hall.
    apply Forall_cons in Hall as [Hr Hall].
    destruct r as [response| |e|]; simpl in *;
      try (rewrite IH by exact Hall; now rewrite <- app_assoc).
    rewrite Hr. rewrite IH by exact Hall. now rewrite <- app_assoc.
Qed.

Lemma outcomes_length (cfg : ScrapingConfig) (urls : list string) :
  forall w, length (outcomes cfg urls w) = length urls.
Proof.
  induction urls as [|url urls IH]; intros w; simpl; [reflexivity|].
  destruct (fetch cfg url w) as [r w1]. simpl. now rewrite IH.
Qed.

Variable async_get : nat -> string -> nat -> exn + Response.

Local Abbreviation gather_from := (gather_from validators_url scheme netloc async_get).
Local Abbreviation async_fetch_many :=
  (async_fetch_many validators_url scheme netloc async_get).

Lemma gather_from_length (cfg_max : Z) (urls : list string) :
  forall i, length (gather_from cfg_max i urls) = length urls.
Proof.
  induction urls as [|url urls IH]; intros i; simpl; [reflexivity|].
  now rewrite IH.
Qed.

Lemma valid_results_spec (entries : list (string * gathered)) :
  forall acc,
  valid_results entries acc
  = acc ++ List.filter (fun g => negb (isinstance_Exception g)) (entries.*2).
Proof.
  induction entries as [|[url g] entries IH]; intros acc; simpl.
  - now rewrite app_nil_r.
  - destruct (isinstance_Exception g); simpl; [apply IH|].
    rewrite IH. now rewrite <- app_assoc.
Qed.

Lemma filter_split_length {A} (f : A -> bool) (l : list A) :
  (length (List.filter (fun x => negb (f x)) l) + length (List.filter f l)
   = length l)%nat.
Proof.
  induction l as [|x l IH]; simpl; [reflexivity|].
  destruct (f x); simpl; lia.
Qed.

(** C8, as the code has it.  When no fetch ends in an exception that is
    no [Exception], [SmartScraper.fetch_many] returns one entry per URL in
    input order, the response where the fetch returned one and [None]
    where it failed, so its length is that of the input.
    [AsyncScraper.fetch_many] returns the results of the tasks that are no
    [Exception], in input order, so its length falls short of the input by
    the number of failed tasks. *)
Theorem fetch_many_partial (cfg : ScrapingConfig) (cfg_max : Z) (urls : list string)
  (w : World) :
  Forall (fun r => caught r = true) (outcomes cfg urls w) ->
  (fst (fetch_many cfg urls w) = Return (entry <$> outcomes cfg urls w)
   /\ length (entry <$> outcomes cfg urls w) = length urls)
  /\ (let results := gather_from cfg_max 0 urls in
      async_fetch_many cfg_max urls
      = List.filter (fun g => negb (isinstance_Exception g)) results
      /\ (length (async_fetch_many cfg_max urls)
          + length (List.filter isinstance_Exception results) = length urls)%nat).
Proof.
  intros Hcaught. split.
  - split.
    + unfold Scraper.fetch_many. now rewrite fetch_many_from_spec.
    + now rewrite length_fmap, outcomes_length.
  - cbv zeta.
    assert (Heq : async_fetch_many cfg_max urls
                  = List.filter (fun g => negb (isinstance_Exception g))
                      (gather_from cfg_max 0 urls)).
    { unfold Scraper.async_fetch_many. rewrite valid_results_spec. simpl.
      rewrite snd_zip; [reflexivity|]. rewrite gather_from_length. lia. }
    split; [exact Heq|].
    rewrite Heq, filter_split_length. apply gather_from_length.
Qed.
End Facts.

Lemma fetch_many_partial_witness :
  fst (fetch_many_in (failing_for B_url) plain [S_url; B_url; C_url] (new_world plain 0))
  = Return (entry <$> outcomes (fun s => s) (fun _ => true) (fun _ => "https"%string)
                        (fun _ => "a.example"%string) (failing_for B_url) (fun _ => 0%Q)
                        plain [S_url; B_url; C_url] (new_world plain 0)).
Proof.
  apply (fetch_many_partial (fun s => s) (fun _ => true) (fun _ => "https"%string)
           (fun _ => "a.example"%string) (failing_for B_url) (fun _ => 0%Q)
           (fun _ url k => failing_for B_url k url) plain 3
           [S_url; B_url; C_url] (new_world plain 0)).
  vm_compute. repeat constructor.
Defined.


(** A response 404 is raised as [HTTPError] and the cache stays empty. *)
Example fetch_skips_not_found :
  (let '(r, w) := fetch_in (answering 404) caching S_url (new_world caching 0) in
   (r, Cache.stored <$> cache w))
  = (Raise (HTTPError 404), Some []).
Proof. vm_compute. reflexivity. Qed.

(** C8 fails for [SmartScraper.fetch_many]: with the second of three URLs
    failing, the list it returns has three entries, [None] in the middle. *)
Lemma fetch_many_keeps_length :
  fst (fetch_many_in (failing_for B_url) plain [S_url; B_url; C_url] (new_world plain 0))
  = Return [Some (mkResponse 200 S_url); None; Some (mkResponse 200 C_url)].
Proof. vm_compute. reflexivity. Qed.

(** [AsyncScraper.fetch_many] on the same network returns the two
    responses only. *)
Example async_fetch_many_omits_failure :
  async_fetch_many_in B_url [S_url; B_url; C_url]
  = [GResponse (mkResponse 200 S_url); GResponse (mkResponse 200 C_url)].
Proof. vm_compute. reflexivity. Qed.

End FetcherFacts.

(* ===================================================================== *)
(** ** More on the token bucket and the adaptive limiter *)
(* ===================================================================== *)

Module AccountingFacts.
Import RateLimiter Accounting.
Local Open Scope Q_scope.
















End AccountingFacts.

(* ===================================================================== *)
(** ** The sliding window *)
(* ===================================================================== *)

Module SlidingWindowFacts.
Import SlidingWindow.
Local Open Scope Q_scope.

Lemma popleft_old_length (cutoff : Q) (stamps : list Q) :
  (length (popleft_old cutoff stamps) <= length stamps)%nat.
Proof.
  induction stamps as [|t stamps IH]; simpl; [lia|].
  destruct (Qle_bool cutoff t); simpl; lia.
Qed.

Lemma popleft_old_drops (cutoff oldest : Q) (newer : list Q) :
  oldest < cutoff ->
  (length (popleft_old cutoff (oldest :: newer)) <= length newer)%nat.
Proof.
  intros Hold. simpl.
  destruct (Qle_bool cutoff oldest) eqn:Hb.
  - apply Qle_bool_iff in Hb. lra.
  - apply popleft_old_length.
Qed.

Lemma since_cons (cutoff x : Q) (stamps : list Q) :
  since cutoff (x :: stamps)
  = if Qle_bool cutoff x then x :: since cutoff stamps else since cutoff stamps.
Proof. reflexivity. Qed.

Lemma since_all (cutoff : Q) (stamps : list Q) :
  Forall (fun x => cutoff <= x) stamps -> since cutoff stamps = stamps.
Proof.
  induction 1 as [|x l Hx _ IH]; [reflexivity|].
  apply Qle_bool_iff in Hx. now rewrite since_cons, Hx, IH.
Qed.

(** On a deque in time order the loop of [_clean_old_requests] removes
    every stamp older than the cutoff and no other. *)
Lemma popleft_old_sorted (cutoff : Q) (stamps : list Q) :
  StronglySorted Qle stamps -> popleft_old cutoff stamps = since cutoff stamps.
Proof.
  induction 1 as [|t stamps Hs IH Hall]; [reflexivity|].
  rewrite since_cons. cbn [popleft_old].
  destruct (Qle_bool cutoff t) eqn:Hb; [|exact IH].
  apply Qle_bool_iff in Hb.
  f_equal. symmetry. apply since_all.
  eapply Forall_impl; [exact Hall|]. intros x Hx. simpl in Hx. lra.
Qed.

Lemma since_since (c c' : Q) (stamps : list Q) :
  c <= c' -> since c' (since c stamps) = since c' stamps.
Proof.
  intros Hc. induction stamps as [|x l IH]; [reflexivity|].
  rewrite !since_cons.
  destruct (Qle_bool c x) eqn:H1; destruct (Qle_bool c' x) eqn:H2;
    rewrite ?since_cons, ?H2, ?IH; try reflexivity.
  apply Qle_bool_iff in H2.
  assert (H : Qle_bool c x = true) by (apply Qle_bool_iff; lra). congruence.
Qed.

Lemma since_in (c x : Q) (stamps : list Q) : In x (since c stamps) -> In x stamps.
Proof. unfold since. rewrite filter_In. tauto. Qed.

Lemma since_sorted (c : Q) (stamps : list Q) :
  StronglySorted Qle stamps -> StronglySorted Qle (since c stamps).
Proof.
  induction 1 as [|t stamps Hs IH Hall]; [constructor|].
  rewrite since_cons. destruct (Qle_bool c t); [|exact IH].
  constructor; [exact IH|].
  apply List.Forall_forall. intros x Hx. apply since_in in Hx.
  rewrite List.Forall_forall in Hall. now apply Hall.
Qed.

Lemma since_snoc (c t : Q) (stamps : list Q) :
  c <= t -> since c (stamps ++ [t]) = since c stamps ++ [t].
Proof.
  intros Ht. unfold since. rewrite List.filter_app. f_equal.
  change (List.filter (fun stamp => Qle_bool c stamp) [t]) with (since c [t]).
  rewrite since_cons. apply Qle_bool_iff in Ht. now rewrite Ht.
Qed.

Lemma sorted_snoc (stamps : list Q) (t : Q) :
  StronglySorted Qle stamps -> Forall (fun x => x <= t) stamps ->
  StronglySorted Qle (stamps ++ [t]).
Proof.
  induction 1 as [|x l Hs IH Hall]; intros Hle; simpl.
  - repeat constructor.
  - apply Forall_cons in Hle as [Hx Hle].
    constructor; [now apply IH|].
    apply Forall_app. split; [exact Hall | now repeat constructor].
Qed.

Lemma pass_kept (mx w : Z) (from : Q) (r : reading) (l : SlidingWindowRateLimiter)
  (accepted : list Q) :
  (0 <= w)%Z -> from <= now r -> now r <= later r ->
  kept mx w from l accepted ->
  let out := fst (pass (blocking r) (now r) (later r) l) in
  let l1 := snd (pass (blocking r) (now r) (later r) l) in
  let accepted1 := match out with Granted => accepted ++ [later r] | _ => accepted end in
  kept mx w (later r) l1 accepted1
  /\ requests l1 = since (now r - inject_Z w) accepted1.
Proof.
  intros Hw Hfrom Hlater (Hmx & Hwin & Hsorted & Hpast & Hlen & c & Hc & Hreq).
  rewrite Zle_Qle in Hw. change (inject_Z 0) with 0 in Hw.
  assert (Hclean : popleft_old (now r - inject_Z w) (requests l)
                   = since (now r - inject_Z w) accepted).
  { rewrite Hreq, popleft_old_sorted by now apply since_sorted.
    apply since_since. lra. }
  assert (Hshrink : (length (since (now r - inject_Z w) accepted)
                     <= length (requests l))%nat).
  { rewrite <- Hclean. apply popleft_old_length. }
  assert (Hpast' : Forall (fun x => x <= later r) accepted).
  { eapply Forall_impl; [exact Hpast|]. intros x Hx. simpl in Hx. lra. }
  unfold pass, _clean_old_requests; simpl. rewrite Hwin, Hmx, Hclean.
  destruct (Z.of_nat (length (since (now r - inject_Z w) accepted)) <? mx)%Z eqn:Hroom;
    simpl.
  - apply Z.ltb_lt in Hroom.
    assert (Hsnoc : since (now r - inject_Z w) (accepted ++ [later r])
                    = since (now r - inject_Z w) accepted ++ [later r])
      by (apply since_snoc; lra).
    split; [|now rewrite Hsnoc].
    unfold kept; simpl. conjs; auto.
    + now apply sorted_snoc.
    + apply Forall_app. split; [exact Hpast'|]. repeat constructor. lra.
    + rewrite length_app. simpl. lia.
    + exists (now r - inject_Z w). split; [lra | now rewrite Hsnoc].
  - assert (Hrest : kept mx w (later r)
                      (mkLimiter mx w (since (now r - inject_Z w) accepted)) accepted).
    { unfold kept; simpl. conjs; auto; [lia|].
      exists (now r - inject_Z w). split; [lra | reflexivity]. }
    destruct (blocking r); simpl.
    + destruct (since (now r - inject_Z w) accepted) eqn:Hs; simpl;
        (split; [exact Hrest | now rewrite ?Hs]).
    + split; [exact Hrest | reflexivity].
Qed.

Lemma passes_kept (mx w : Z) (rs : list reading) :
  (0 <= w)%Z ->
  forall (from : Q) (l : SlidingWindowRateLimiter) (accepted : list Q) (r : reading),
    monotone from rs -> last rs = Some r ->
    kept mx w from l accepted ->
    let '(outs, l', accepted') := passes rs l accepted in
    requests l' = since (now r - inject_Z w) accepted'
    /\ (Z.of_nat (length (requests l')) <= Z.max 0 mx)%Z.
Proof.
  intros Hw. induction rs as [|r0 rs IH]; intros from l accepted r Hmono Hlast Hkept.
  - discriminate.
  - simpl in Hmono. destruct Hmono as (Hfrom & Hlater & Hmono).
    pose proof (pass_kept mx w from r0 l accepted Hw Hfrom Hlater Hkept) as Hpass.
    simpl. destruct (pass (blocking r0) (now r0) (later r0) l) as [out l1].
    simpl in Hpass. destruct Hpass as [Hkept1 Hreq1].
    destruct rs as [|r1 rs].
    + simpl. simpl in Hlast. injection Hlast as <-.
      split; [exact Hreq1|]. now destruct Hkept1 as (_ & _ & _ & _ & Hlen & _).
    + rewrite last_cons_cons in Hlast.
      specialize (IH (later r0) l1
                    (match out with Granted => accepted ++ [later r0] | _ => accepted end)
                    r Hmono Hlast Hkept1).
      destruct (passes (r1 :: rs) l1 _) as [[outs l2] accepted2]. exact IH.
Qed.

(** X6.  [SlidingWindowRateLimiter] with a window of [w >= 0] seconds:
    after any run of passes through the loop of [acquire], blocking or not,
    with clock readings that do not run backwards, the deque holds exactly
    the accepted time stamps that are not before [now - w], [now] being the
    reading of the last clean-up, and it holds at most [max(0, max_requests)]
    of them. *)
Theorem sliding_window_guarantee (mx w : Z) (t0 : Q) (rs : list reading) (r : reading) :
  (0 <= w)%Z -> monotone t0 rs -> last rs = Some r ->
  let '(outs, l, accepted) := passes rs (window_init mx w) [] in
  requests l = since (now r - inject_Z w) accepted
  /\ (Z.of_nat (length (requests l)) <= Z.max 0 mx)%Z.
Proof.
  intros Hw Hmono Hlast.
  apply (passes_kept mx w rs Hw t0 (window_init mx w) [] r Hmono Hlast).
  unfold kept, window_init; simpl. conjs; auto; try constructor; try lia.
  exists (t0 - inject_Z w). split; [lra | reflexivity].
Qed.

Lemma sliding_window_guarantee_witness :
  let rs := [mkReading false 0 0; mkReading false 1 1; mkReading false 2 2;
             mkReading false 11 11] in
  let '(outs, l, accepted) := passes rs (window_init 2 10) [] in
  requests l = since (11 - inject_Z 10) accepted
  /\ (Z.of_nat (length (requests l)) <= Z.max 0 2)%Z.
Proof.
  apply (sliding_window_guarantee 2 10 0
           [mkReading false 0 0; mkReading false 1 1; mkReading false 2 2;
            mkReading false 11 11] (mkReading false 11 11)).
  - lia.
  - simpl. repeat split; vm_compute; discriminate.
  - reflexivity.
Defined.

(** X7.  A pass through the loop of [SlidingWindowRateLimiter.acquire]
    raises [IndexError] exactly when the call is blocking, [max_requests] is
    zero or negative, and the clean-up leaves the deque empty:
    [self.requests[0]] is then read on an empty deque. *)
Theorem pass_index_error (blocking : bool) (now later : Q) (l : SlidingWindowRateLimiter) :
  fst (pass blocking now later l) = RaisedIndexError
  <-> blocking = true /\ (max_requests l <= 0)%Z
      /\ requests (_clean_old_requests now l) = [].
Proof.
  unfold pass.
  destruct (Z.of_nat (length (requests (_clean_old_requests now l)))
            <? max_requests (_clean_old_requests now l))%Z eqn:Hroom; simpl.
  - apply Z.ltb_lt in Hroom. simpl in Hroom. split; [discriminate|].
    intros (_ & Hmax & Hempty). lia.
  - apply Z.ltb_ge in Hroom. simpl in Hroom.
    destruct blocking; simpl.
    + destruct (popleft_old _ (requests l)) as [|oldest rest] eqn:Hq; simpl.
      * split; [|reflexivity]. intros _. simpl in Hroom. conjs; auto.
      * split; [discriminate|]. intros (_ & _ & H). discriminate.
    + split; [discriminate|]. intros (H & _). discriminate.
Qed.

(** A pass that finds the oldest stamp older than the cutoff, in a deque
    that is not over-full, accepts the request. *)
Lemma pass_after_wait (blocking : bool) (now later oldest : Q) (rest : list Q)
  (mx w : Z) :
  (Z.of_nat (length (oldest :: rest)) <= mx)%Z ->
  oldest < now - inject_Z w ->
  pass blocking now later (mkLimiter mx w (oldest :: rest))
  = (Granted, mkLimiter mx w (popleft_old (now - inject_Z w) rest ++ [later])).
Proof.
  intros Hlen Hold.
  pose proof (popleft_old_length (now - inject_Z w) rest) as Hshrink.
  unfold pass, _clean_old_requests. cbn [requests max_requests window_seconds popleft_old].
  destruct (Qle_bool (now - inject_Z w) oldest) eqn:Hb.
  { apply Qle_bool_iff in Hb. lra. }
  assert (Hroom : (Z.of_nat (length (popleft_old (now - inject_Z w) rest)) <? mx)%Z = true).
  { apply Z.ltb_lt. simpl in Hlen. lia. }
  now rewrite Hroom.
Qed.

(** What a pass that asks to wait tells: the deque is full, and the wait
    ends when the oldest stamp leaves the window. *)
Lemma pass_wait (now later wait_time : Q) (l : SlidingWindowRateLimiter) :
  fst (pass true now later l) = Wait wait_time ->
  exists oldest rest,
    snd (pass true now later l)
    = mkLimiter (max_requests l) (window_seconds l) (oldest :: rest)
    /\ wait_time = oldest + inject_Z (window_seconds l) - later
    /\ (length (oldest :: rest) <= length (requests l))%nat.
Proof.
  pose proof (popleft_old_length (now - inject_Z (window_seconds l)) (requests l))
    as Hshrink.
  unfold pass, _clean_old_requests. cbn [requests max_requests window_seconds].
  destruct (_ <? _)%Z; [discriminate|]. cbn [negb].
  destruct (popleft_old _ (requests l)) as [|oldest rest]; [discriminate|].
  cbn [fst snd]. intros [= <-]. exists oldest, rest. conjs; auto.
Qed.

(** X8.  A blocking [SlidingWindowRateLimiter.acquire] that finds the
    window full and sleeps returns [True] on its next pass, when that pass
    reads the clock after more than the wait time has gone by: the new time
    stamp is appended and the deque stays within [max_requests]. *)
Theorem blocking_window_wakes (readings : nat -> Q * Q) (l : SlidingWindowRateLimiter)
  (wait_time : Q) :
  (Z.of_nat (length (requests l)) <= max_requests l)%Z ->
  fst (pass true (fst (readings 0%nat)) (snd (readings 0%nat)) l) = Wait wait_time ->
  snd (readings 0%nat) + wait_time < fst (readings 1%nat) ->
  exists l',
    acquire_blocking 2 0 readings l = Some (Granted, l')
    /\ last (requests l') = Some (snd (readings 1%nat))
    /\ (Z.of_nat (length (requests l')) <= max_requests l)%Z.
Proof.
  intros Hlen Hwait Hwake.
  destruct (pass_wait _ _ _ _ Hwait) as (oldest & rest & Hl1 & -> & Hshort).
  cbn [acquire_blocking].
  destruct (pass true (fst (readings 0%nat)) (snd (readings 0%nat)) l) as [out l1].
  cbn [fst snd] in Hwait, Hl1. subst out l1.
  rewrite pass_after_wait by (try lra; lia).
  eexists. split; [reflexivity|]. cbn [requests].
  split; [apply last_snoc|].
  pose proof (popleft_old_length
                (fst (readings 1%nat) - inject_Z (window_seconds l)) rest) as Hshrink.
  rewrite length_app. simpl in *. lia.
Qed.

Lemma blocking_window_wakes_witness :
  exists l',
    acquire_blocking 2 0 (fun k => match k with O => (2, 2) | _ => (11, 11) end)
      (mkLimiter 2 10 [0; 1])
    = Some (Granted, l').
Proof.
  destruct (blocking_window_wakes
              (fun k => match k with O => (2, 2) | _ => (11, 11) end)
              (mkLimiter 2 10 [0; 1]) (0 + inject_Z 10 - 2)) as (l' & H & _).
  - simpl. lia.
  - reflexivity.
  - vm_compute. reflexivity.
  - exists l'. exact H.
Defined.

(** When the clock reads exactly the end of the wait, the oldest stamp is
    not yet older than the cutoff, and the pass asks for another wait of
    zero seconds. *)
Example blocking_window_spins_on_the_boundary :
  fst (pass true 10 10 (mkLimiter 2 10 [0; 1])) = Wait (0 + inject_Z 10 - 10).
Proof. reflexivity. Qed.
End SlidingWindowFacts.

(* ===================================================================== *)
(** ** More on the retry loops *)
(* ===================================================================== *)

Module RetryMoreFacts.
Import Retry.
Local Open Scope Q_scope.

Section Loop.
Context {T E W : Type}.
Variable func : W -> (E + T) * W.
Variable random : W -> Q * W.
Variable sleep : Q -> W -> W.

(** [execute] sleeps between two attempts and nowhere else. *)
Lemma execute_from_sleeps (m : RetryManager E) (todo : nat) :
  forall (attempt : Z) (last_exception : option E) (w : W),
  (Z.of_nat todo + attempt = max_retries m + 1)%Z ->
  let r := execute_from func random sleep m todo attempt last_exception w in
  length (sleeps r) = pred (length (invocations r))
  /\ (todo <> 0%nat -> invocations r <> []).
Proof.
  induction todo as [|todo IH]; intros attempt last_exception w Hsum; simpl.
  - split; [reflexivity | congruence].
  - destruct (func w) as [[e|v] w1]; simpl; [|split; [reflexivity | discriminate]].
    destruct (retry_exceptions m e); simpl; [|split; [reflexivity | discriminate]].
    destruct (attempt <? max_retries m)%Z eqn:Hmore.
    + apply Z.ltb_lt in Hmore.
      destruct (random w1) as [u w2]. simpl.
      destruct (IH (attempt + 1)%Z (Some e) (sleep (calculate_delay m attempt u) w2))
        as [Hlen Hsome]; [lia|].
      split; [|discriminate]. rewrite Hlen.
      destruct (invocations _) eqn:Hinv; [exfalso; apply Hsome; [lia | reflexivity]|].
      reflexivity.
    + apply Z.ltb_ge in Hmore. simpl.
      assert (todo = 0%nat) by lia. subst todo. simpl.
      split; [reflexivity | discriminate].
Qed.

(** X9.  [RetryManager.execute] with [max_retries >= 0] sleeps once
    between two consecutive attempts and nowhere else: it makes one sleep
    fewer than invocations of [func], and at most [max_retries] sleeps. *)
Theorem execute_sleeps_between_attempts (m : RetryManager E) (w : W) :
  (0 <= max_retries m)%Z ->
  let r := execute func random sleep m w in
  (length (sleeps r) + 1 = length (invocations r))%nat
  /\ (Z.of_nat (length (sleeps r)) <= max_retries m)%Z.
Proof.
  intros Hmax r.
  destruct (execute_from_sleeps m (Z.to_nat (max_retries m + 1)) 0%Z None w)
    as [Hlen Hsome]; [lia|].
  destruct (RetryFacts.execute_from_spec func random sleep m
              (Z.to_nat (max_retries m + 1)) 0%Z None w) as (Hbound & _ & _).
  fold (execute func random sleep m w) in Hlen, Hsome, Hbound.
  fold r in Hlen, Hsome, Hbound.
  assert (Hne : invocations r <> []) by (apply Hsome; lia).
  destruct (invocations r) as [|o os] eqn:Hinv; [congruence|].
  simpl in *. lia.
Qed.



Lemma calculate_delay_range (m : RetryManager E) (n : Z) (u : Q) :
  0 <= u -> u <= 1 ->
  0 <= base_delay m -> 0 <= exponential_base m -> 0 <= max_delay m ->
  0 <= calculate_delay m n u /\ calculate_delay m n u <= (125 # 100) * max_delay m.
Proof.
  intros Hu0 Hu1 Hb He Hm.
  pose proof (RetryFacts.backoff_nonneg m n Hb He Hm) as Hd.
  assert (Hcap : backoff m n <= max_delay m) by apply Q.le_min_r.
  unfold calculate_delay, uniform.
  remember (backoff m n) as x eqn:Ex. clear Ex.
  assert (Hxu : 0 <= x * u) by now apply Qmult_le_0_compat.
  assert (Hxu1 : x * u <= x).
  { assert (H1 : 0 <= x * (1 - u)) by (apply Qmult_le_0_compat; lra).
    assert (H2 : x * (1 - u) == x - x * u) by ring. lra. }
  assert (Heq : x + (- (x * (25 # 100)) + (x * (25 # 100) - - (x * (25 # 100))) * u)
                == (75 # 100) * x + (50 # 100) * (x * u)) by ring.
  rewrite Heq. split; lra.
Qed.

Lemma execute_from_sleeps_bounded (m : RetryManager E) (todo : nat) :
  (forall w, 0 <= fst (random w) /\ fst (random w) <= 1) ->
  0 <= base_delay m -> 0 <= exponential_base m -> 0 <= max_delay m ->
  forall (attempt : Z) (last_exception : option E) (w : W),
    Forall (fun d => 0 <= d /\ d <= (125 # 100) * max_delay m)
      (sleeps (execute_from func random sleep m todo attempt last_exception w)).
Proof.
  intros Hrandom Hb He Hm.
  induction todo as [|todo IH]; intros attempt last_exception w; simpl; [constructor|].
  destruct (func w) as [[e|v] w1]; simpl; [|constructor].
  destruct (retry_exceptions m e); simpl; [|constructor].
  destruct (attempt <? max_retries m)%Z.
  - specialize (Hrandom w1). destruct (random w1) as [u w2]. simpl in *.
    constructor; [|apply IH].
    apply calculate_delay_range; tauto.
  - simpl. apply IH.
Qed.

Lemma total_bounded (bound : Q) (delays : list Q) :
  Forall (fun d => 0 <= d /\ d <= bound) delays ->
  0 <= Decorator.total delays
  /\ Decorator.total delays <= inject_Z (Z.of_nat (length delays)) * bound.
Proof.
  induction 1 as [|d delays [Hd0 Hd1] _ [IH0 IH1]]; unfold Decorator.total in *;
    cbn [fold_right length].
  - split; [lra|]. assert (H : inject_Z (Z.of_nat 0) * bound == 0) by ring. lra.
  - rewrite Nat2Z.inj_succ, <- Z.add_1_r, inject_Z_plus.
    assert (H : (inject_Z (Z.of_nat (length delays)) + inject_Z 1) * bound
                == inject_Z (Z.of_nat (length delays)) * bound + bound) by ring.
    rewrite H. split; lra.
Qed.

(** X11.  With [max_retries >= 0], non-negative [base_delay],
    [exponential_base] and [max_delay], and [random()] in [0, 1], every
    sleep of [RetryManager.execute] lasts between 0 and [1.25 * max_delay]
    seconds, and the sleeps of one call last at most
    [max_retries * 1.25 * max_delay] seconds together. *)
Theorem execute_sleep_bounded (m : RetryManager E) (w : W) :
  (0 <= max_retries m)%Z ->
  (forall w, 0 <= fst (random w) /\ fst (random w) <= 1) ->
  0 <= base_delay m -> 0 <= exponential_base m -> 0 <= max_delay m ->
  let r := execute func random sleep m w in
  Forall (fun d => 0 <= d /\ d <= (125 # 100) * max_delay m) (sleeps r)
  /\ Decorator.total (sleeps r)
     <= inject_Z (max_retries m) * ((125 # 100) * max_delay m).
Proof.
  intros Hmax Hrandom Hb He Hm r.
  pose proof (execute_from_sleeps_bounded m (Z.to_nat (max_retries m + 1))
                Hrandom Hb He Hm 0%Z None w) as Hall.
  fold (execute func random sleep m w) in Hall. fold r in Hall.
  split; [exact Hall|].
  destruct (total_bounded _ _ Hall) as [_ Htotal].
  destruct (execute_from_sleeps m (Z.to_nat (max_retries m + 1)) 0%Z None w)
    as [Hlen Hsome]; [lia|].
  destruct (RetryFacts.execute_from_spec func random sleep m
              (Z.to_nat (max_retries m + 1)) 0%Z None w) as (Hbound & _ & _).
  fold (execute func random sleep m w) in Hlen, Hbound. fold r in Hlen, Hbound.
  assert (Hcount : (Z.of_nat (length (sleeps r)) <= max_retries m)%Z) by lia.
  rewrite Zle_Qle in Hcount.
  assert (Hnn : 0 <= (125 # 100) * max_delay m) by lra.
  assert (Hmul : inject_Z (Z.of_nat (length (sleeps r))) * ((125 # 100) * max_delay m)
                 <= inject_Z (max_retries m) * ((125 # 100) * max_delay m)).
  { apply Qmult_le_compat_r; assumption. }
  lra.
Qed.

(** X12.  The [retry] decorator: a function wrapped with
    [retry(max_retries, delay, exceptions)], [max_retries >= 0] and
    [delay >= 0], is invoked at most [max_retries + 1] times per call, with
    one sleep between two invocations, each of at most 75 seconds, which is
    1.25 times the default [max_delay] of 60. *)
Theorem retry_decorator_bounded (max_retries_arg : Z) (delay : Q)
  (exceptions : E -> bool) (w : W) :
  (0 <= max_retries_arg)%Z -> 0 <= delay ->
  (forall w, 0 <= fst (random w) /\ fst (random w) <= 1) ->
  let r := Decorator.retry func random sleep max_retries_arg delay exceptions w in
  (Z.of_nat (length (invocations r)) <= max_retries_arg + 1)%Z
  /\ (length (sleeps r) + 1 = length (invocations r))%nat
  /\ Forall (fun d => 0 <= d /\ d <= 75) (sleeps r).
Proof.
  intros Hmax Hdelay Hrandom r. unfold Decorator.retry in r.
  set (m := mkRetryManager max_retries_arg delay 60 2 exceptions) in r.
  destruct (execute_from_sleeps m (Z.to_nat (max_retries m + 1)) 0%Z None w)
    as [Hlen Hsome]; [simpl; lia|].
  destruct (RetryFacts.execute_from_spec func random sleep m
              (Z.to_nat (max_retries m + 1)) 0%Z None w) as (Hbound & _ & _).
  assert (Hall : Forall (fun d => 0 <= d /\ d <= (125 # 100) * max_delay m) (sleeps r)).
  { apply execute_from_sleeps_bounded; simpl; auto; lra. }
  fold (execute func random sleep m w) in Hlen, Hsome, Hbound.
  fold r in Hlen, Hsome, Hbound. simpl in Hbound, Hsome.
  assert (Hne : invocations r <> []) by (apply Hsome; lia).
  conjs.
  - lia.
  - destruct (invocations r); [congruence | simpl in *; lia].
  - eapply Forall_impl; [exact Hall|]. intros d [Hd0 Hd1]. simpl in Hd1.
    split; [exact Hd0|]. lra.
Qed.
End Loop.

Section AsyncLoop.
Context {T E W : Type}.
Variable func : W -> (E + T) * W.
Variable sleep : Q -> W -> W.
Variable is_Exception : E -> bool.

(** The loop of [AsyncScraper.fetch] sleeps [2 ** attempt] seconds after
    the failed attempt number [attempt], when another attempt follows. *)
Lemma async_attempts_sleeps (cfg : Z) (todo : nat) :
  forall (attempt : nat) (w : W),
  (Z.of_nat todo + Z.of_nat attempt = cfg)%Z ->
  let r := async_attempts func sleep is_Exception cfg todo (Z.of_nat attempt) w in
  sleeps r
  = (fun k => inject_Z (2 ^ Z.of_nat k)) <$> seq attempt (pred (length (invocations r)))
  /\ (todo <> 0%nat -> invocations r <> []).
Proof.
  induction todo as [|todo IH]; intros attempt w Hsum; simpl.
  - split; [reflexivity | congruence].
  - destruct (func w) as [[e|v] w1]; simpl; [|split; [reflexivity | discriminate]].
    destruct (is_Exception e); simpl; [|split; [reflexivity | discriminate]].
    destruct (Z.of_nat attempt =? cfg - 1)%Z eqn:Hfinal; simpl;
      [split; [reflexivity | discriminate]|].
    apply Z.eqb_neq in Hfinal.
    specialize (IH (S attempt) (sleep (inject_Z (2 ^ Z.of_nat attempt)) w1)).
    replace (Z.of_nat (S attempt)) with (Z.of_nat attempt + 1)%Z in IH by lia.
    destruct IH as [Hsl Hsome]; [lia|].
    split; [|discriminate]. rewrite Hsl.
    destruct (invocations _) as [|o os] eqn:Hinv;
      [exfalso; apply Hsome; [lia | reflexivity]|].
    reflexivity.
Qed.

(** X13.  The retry loop of [AsyncScraper.fetch] with [max_retries >= 0]
    sleeps 1, 2, 4, ... seconds: [2 ** attempt] after the failed attempt
    number [attempt], once between two consecutive attempts, without jitter
    and without a cap; it makes at most [max_retries - 1] sleeps. *)
Theorem async_backoff_doubles (cfg : Z) (w : W) :
  (0 <= cfg)%Z ->
  let a := async_retry func sleep is_Exception cfg w in
  sleeps a = Decorator.doubling (pred (length (invocations a)))
  /\ (Z.of_nat (length (sleeps a)) <= Z.max 0 (cfg - 1))%Z.
Proof.
  intros Hcfg a.
  destruct (async_attempts_sleeps cfg (Z.to_nat cfg) 0%nat w) as [Hsl _]; [lia|].
  assert (Hsl' : sleeps a = Decorator.doubling (pred (length (invocations a))))
    by exact Hsl.
  split; [exact Hsl'|].
  pose proof (RetryFacts.async_retry_attempts func sleep is_Exception cfg w Hcfg) as Hlen.
  fold a in Hlen. rewrite Hsl'. unfold Decorator.doubling.
  rewrite length_fmap, length_seq. lia.
Qed.
End AsyncLoop.

Section Backoff.
Context {E : Type}.

End Backoff.

Lemma execute_sleeps_between_attempts_witness :
  let m := mkRetryManager 3 1 60 2 (fun _ : string => true) in
  let r := execute Scenario.always_failing (fun w => (0, w)) (fun _ w => w) m 0%nat in
  (length (sleeps r) + 1 = length (invocations r))%nat
  /\ (Z.of_nat (length (sleeps r)) <= 3)%Z.
Proof.
  intros m.
  apply (execute_sleeps_between_attempts Scenario.always_failing (fun w => (0, w))
           (fun _ w => w) m 0%nat).
  simpl. lia.
Defined.


Lemma execute_sleep_bounded_witness :
  let m := mkRetryManager 3 1 60 2 (fun _ : string => true) in
  let r := execute Scenario.always_failing (fun w => (1 # 2, w)) (fun _ w => w) m 0%nat in
  Forall (fun d => 0 <= d /\ d <= (125 # 100) * 60) (sleeps r)
  /\ Decorator.total (sleeps r) <= inject_Z 3 * ((125 # 100) * 60).
Proof.
  intros m.
  apply (execute_sleep_bounded Scenario.always_failing (fun w => (1 # 2, w))
           (fun _ w => w) m 0%nat).
  - simpl. lia.
  - intros w. simpl. split; vm_compute; discriminate.
  - vm_compute; discriminate.
  - vm_compute; discriminate.
  - vm_compute; discriminate.
Defined.

Lemma async_backoff_doubles_witness :
  let a := async_retry Scenario.always_failing (fun _ w => w) (fun _ => true) 3 0%nat in
  sleeps a = Decorator.doubling (pred (length (invocations a)))
  /\ (Z.of_nat (length (sleeps a)) <= Z.max 0 (3 - 1))%Z.
Proof.
  apply (async_backoff_doubles Scenario.always_failing (fun _ w => w) (fun _ => true)
           3 0%nat).
  lia.
Defined.

Lemma retry_decorator_bounded_witness :
  let r := Decorator.retry Scenario.always_failing (fun w => (1 # 2, w)) (fun _ w => w)
             3 1 (fun _ => true) 0%nat in
  (Z.of_nat (length (invocations r)) <= 3 + 1)%Z
  /\ (length (sleeps r) + 1 = length (invocations r))%nat
  /\ Forall (fun d => 0 <= d /\ d <= 75) (sleeps r).
Proof.
  apply (retry_decorator_bounded Scenario.always_failing (fun w => (1 # 2, w))
           (fun _ w => w) 3 1 (fun _ => true) 0%nat).
  - lia.
  - vm_compute; discriminate.
  - intros w. simpl. split; vm_compute; discriminate.
Defined.


Example backoff_reaches_the_cap :
  let m := mkRetryManager 3 1 60 2 (fun _ : string => true) in
  backoff m 5 == 32 /\ backoff m 6 == 60 /\ backoff m 7 == 60.
Proof. intros m. conjs; reflexivity. Qed.
End RetryMoreFacts.

Module RetryCountFacts.
Import Retry.
Section Loop.
Context {T E W : Type}.
Variable func : W -> (E + T) * W.
Variable random : W -> Q * W.
Variable sleep : Q -> W -> W.
Variable is_Exception : E -> bool.

(** A counter that every call of [func] advances by one, and nothing
    else touches, counts the invocations. *)
Lemma execute_from_counts (count : W -> nat) (m : RetryManager E) (todo : nat) :
  (forall w, count (snd (func w)) = S (count w)) ->
  (forall w, count (snd (random w)) = count w) ->
  (forall d w, count (sleep d w) = count w) ->
  forall attempt last_exception w,
    let r := execute_from func random sleep m todo attempt last_exception w in
    count (world r) = (count w + length (invocations r))%nat.
Proof.
  intros Hfunc Hrandom Hsleep.
  induction todo as [|todo IH]; intros attempt last_exception w; simpl; [lia|].
  specialize (Hfunc w). destruct (func w) as [[e|v] w1]; simpl in *; [|lia].
  destruct (retry_exceptions m e); simpl; [|lia].
  destruct (attempt <? max_retries m)%Z.
  - specialize (Hrandom w1). destruct (random w1) as [u w2]; simpl in *.
    rewrite IH, Hsleep. lia.
  - simpl. rewrite IH. lia.
Qed.

(** A value the loop of [AsyncScraper.fetch] returns is a value [func]
    returned, and the loop ends without a value only when it has no
    iteration to make. *)
Lemma async_attempts_result (cfg : Z) (todo : nat) :
  forall (attempt : Z) (w : W),
  (Z.of_nat todo + attempt = cfg)%Z ->
  let r := async_attempts func sleep is_Exception cfg todo attempt w in
  (forall v, res r = Return v -> exists w', fst (func w') = inr v)
  /\ (res r = ReturnNone -> todo = 0%nat)
  /\ res r <> RaiseTypeError.
Proof.
  induction todo as [|todo IH]; intros attempt w Hsum; simpl.
  - conjs; [discriminate | reflexivity | discriminate].
  - destruct (func w) as [[e|v] w1] eqn:Hf; simpl.
    + destruct (is_Exception e); simpl; [|conjs; discriminate].
      destruct (attempt =? cfg - 1)%Z eqn:Hfinal; simpl; [conjs; discriminate|].
      apply Z.eqb_neq in Hfinal.
      destruct (IH (attempt + 1)%Z (sleep (inject_Z (2 ^ attempt)) w1))
        as (Hret & Hnone & Hte); [lia|].
      conjs; [exact Hret | | exact Hte].
      intros H. apply Hnone in H. lia.
    + conjs; try discriminate. intros v' [= <-]. exists w. now rewrite Hf.
Qed.
End Loop.
End RetryCountFacts.

(* ===================================================================== *)
(** ** More on the cache manager *)
(* ===================================================================== *)

Module CacheMoreFacts.
Import Cache CacheCalls.
Local Open Scope Q_scope.

Section Facts.
Context {V : Type}.
Variable md5 : string -> string.

Lemma live_iff (time : Q) (value : V) (expire_time : Q) :
  live time (value, Some expire_time) = true <-> time < expire_time.
Proof.
  unfold live; simpl. rewrite negb_true_iff. split.
  - intros H. apply Qnot_le_lt. intros Hle. apply Qle_bool_iff in Hle. congruence.
  - intros H. destruct (Qle_bool expire_time time) eqn:Hb; [|reflexivity].
    apply Qle_bool_iff in Hb. lra.
Qed.



Lemma expired_later (time later : Q) (item : string * (V * Q)) :
  time <= later -> expired time item = true -> expired later item = true.
Proof.
  unfold expired. intros Hle H. apply Qle_bool_iff in H. apply Qle_bool_iff. lra.
Qed.

Lemma ttl_contains_later (key : string) (time later : Q) (c : TTLCache V) :
  time <= later -> ttl_contains key time c = false -> ttl_contains key later c = false.
Proof.
  unfold ttl_contains. intros Hle. destruct (getlink key c) as [item|]; [|auto].
  rewrite !negb_false_iff. now apply expired_later.
Qed.

Lemma disk_contains_later (key : string) (time later : Q) (d : DiskCache V) :
  time <= later -> disk_contains key time d = false -> disk_contains key later d = false.
Proof.
  unfold disk_contains, DiskCache in *. intros Hle.
  destruct (d !! key) as [[value [expire_time|]]|]; auto.
  unfold live; simpl. rewrite !negb_false_iff. intros H.
  apply Qle_bool_iff in H. apply Qle_bool_iff. lra.
Qed.

(** X15.  After [delete(key)], [has(key)] is [False] and [get(key)]
    returns [None] at every later time, in both backends; after [clear()],
    [has] is [False] for every key. *)
Theorem delete_and_clear_forget (key : string) (time later : Q) (m : CacheManager V) :
  time <= later ->
  has md5 key later (delete md5 key time m) = false
  /\ fst (get md5 key later (delete md5 key time m)) = None
  /\ (forall other, has md5 other later (clear m) = false).
Proof.
  intros Hle.
  assert (Hgone : has md5 key later (delete md5 key time m) = false).
  { destruct m as [c|d]; unfold delete, has.
    - destruct (ttl_contains (_make_key md5 key) time c) eqn:Hin.
      + unfold ttl_contains, getlink, ttl_delitem; simpl.
        now rewrite CacheFacts.find_without.
      + now apply (ttl_contains_later _ time).
    - destruct (disk_contains (_make_key md5 key) time d) eqn:Hin.
      + unfold disk_contains, DiskCache in *. now rewrite lookup_delete_eq.
      + now apply (disk_contains_later _ time). }
  conjs.
  - exact Hgone.
  - revert Hgone. generalize (delete md5 key time m). intros [c|d]; unfold has, get.
    + unfold ttl_contains, ttl_get.
      destruct (getlink (_make_key md5 key) c) as [item|]; [|reflexivity].
      rewrite negb_false_iff. now intros ->.
    + unfold disk_contains, disk_get, DiskCache in *.
      destruct (d !! _make_key md5 key) as [entry|]; [|reflexivity].
      now intros ->.
  - intros other. destruct m as [c|d]; unfold clear, has.
    + reflexivity.
    + unfold disk_contains, DiskCache in *. now rewrite lookup_empty.
Qed.

Lemma find_other_moved (key other : string) (item : string * (V * Q))
  (l : list (string * (V * Q))) :
  other <> key -> has_key other item = false ->
  List.find (has_key other) (without key l ++ [item]) = List.find (has_key other) l.
Proof.
  intros Hne Hitem. induction l as [|x l IH]; simpl.
  - now rewrite Hitem.
  - destruct (has_key key x) eqn:Hx; simpl.
    + assert (Hox : has_key other x = false).
      { unfold has_key in *. apply String.eqb_eq in Hx. rewrite <- Hx.
        now apply String.eqb_neq. }
      now rewrite Hox.
    + destruct (has_key other x); [reflexivity | exact IH].
Qed.

(** Reading a key moves its entry and changes nothing that [has] or
    [get] can see. *)
Lemma get_keeps_has (key other : string) (time : Q) (m : CacheManager V) :
  has md5 other time (snd (get md5 key time m)) = has md5 other time m.
Proof.
  destruct m as [c|d]; unfold has, get; [|reflexivity].
  unfold ttl_get.
  destruct (getlink (_make_key md5 key) c) as [item|] eqn:Hlink; [|reflexivity].
  destruct (expired time item); [reflexivity|]. cbn [snd].
  unfold ttl_contains, getlink in *. cbn [links].
  apply find_some in Hlink as Hitem. destruct Hitem as [_ Hkey].
  destruct (String.eqb (_make_key md5 other) (_make_key md5 key)) eqn:Hsame.
  - apply String.eqb_eq in Hsame. rewrite Hsame.
    rewrite CacheFacts.find_app_none by apply CacheFacts.find_without.
    simpl. rewrite Hkey, Hlink. reflexivity.
  - rewrite find_other_moved; [reflexivity | |].
    + intros Heq. rewrite Heq, String.eqb_refl in Hsame. discriminate.
    + unfold has_key in *. apply String.eqb_eq in Hkey. now rewrite <- Hkey.
Qed.

Lemma ttl_get_again (key : string) (time : Q) (c : TTLCache V) :
  fst (ttl_get key time (snd (ttl_get key time c))) = fst (ttl_get key time c).
Proof.
  unfold ttl_get at 2 3.
  destruct (getlink key c) as [item|] eqn:Hlink.
  2:{ cbn [snd fst]. unfold ttl_get. now rewrite Hlink. }
  destruct (expired time item) eqn:Hexp.
  { cbn [snd fst]. unfold ttl_get. now rewrite Hlink, Hexp. }
  cbn [snd fst]. unfold ttl_get, getlink in *. cbn [links].
  apply find_some in Hlink as Hitem. destruct Hitem as [_ Hkey].
  rewrite CacheFacts.find_app_none by apply CacheFacts.find_without.
  simpl. rewrite Hkey, Hexp. reflexivity.
Qed.

Lemma get_again (key : string) (time : Q) (m : CacheManager V) :
  fst (get md5 key time (snd (get md5 key time m))) = fst (get md5 key time m).
Proof.
  destruct m as [c|d]; unfold get; [|reflexivity].
  pose proof (ttl_get_again (_make_key md5 key) time c) as H.
  destruct (ttl_get (_make_key md5 key) time c) as [v c1]. cbn [snd fst] in *.
  destruct (ttl_get (_make_key md5 key) time c1) as [v1 c2]. exact H.
Qed.

Lemma has_get (key : string) (time : Q) (m : CacheManager V) :
  has md5 key time m = true <-> exists value, fst (get md5 key time m) = Some value.
Proof.
  destruct m as [c|d]; unfold has, get.
  - unfold ttl_contains, ttl_get.
    destruct (getlink (_make_key md5 key) c) as [item|]; simpl.
    + destruct (expired time item); simpl; split; try discriminate; eauto.
      intros [? ?]; discriminate.
    + split; [discriminate | intros [? ?]; discriminate].
  - unfold disk_contains, disk_get, DiskCache in *. cbn [fst].
    destruct (d !! _make_key md5 key) as [entry|].
    + destruct (live time entry); split; try discriminate; eauto.
      intros [? ?]; discriminate.
    + split; [discriminate | intros [? ?]; discriminate].
Qed.

(** What [set] stores in the memory backend is served until the
    time-to-live of the constructor has passed. *)
Lemma memory_set_served (key : string) (value : V) (ttl_arg : option Z)
  (time later : Q) (c : TTLCache V) :
  (1 <= maxsize c)%Z -> later < time + inject_Z (ttl c) ->
  exists m', set md5 key value ttl_arg time (Memory c) = Some m'
             /\ has md5 key later m' = true
             /\ fst (get md5 key later m') = Some value.
Proof.
  intros Hsize Hfresh. unfold set.
  destruct (ttl_setitem (_make_key md5 key) value time c) as [c'|] eqn:Hset.
  2:{ unfold ttl_setitem in Hset.
      destruct (maxsize c <? 1)%Z eqn:Hlt; [|discriminate].
      apply Z.ltb_lt in Hlt. lia. }
  exists (Memory c'). split; [reflexivity|].
  unfold has, get, ttl_contains, ttl_get.
  rewrite (CacheFacts.ttl_setitem_link _ _ _ _ _ Hset).
  apply (CacheFacts.not_expired_iff later _ (_make_key md5 key) value) in Hfresh.
  rewrite Hfresh. apply negb_true_iff in Hfresh. rewrite Hfresh. auto.
Qed.

(** X16.  Round trip.  What [set(key, value, ttl)] stores, [get(key)]
    returns while the entry is alive: in a memory backend of size 1 or more
    until the time-to-live of the constructor is over, whatever [ttl] was
    passed; in the disk backend until the [ttl] passed is over, and without
    limit when [ttl] is [None]. *)
Theorem set_get_round_trip (key : string) (value : V) (time later : Q) :
  (forall (c : TTLCache V) (ttl_arg : option Z),
     (1 <= maxsize c)%Z -> later < time + inject_Z (ttl c) ->
     exists m', set md5 key value ttl_arg time (Memory c) = Some m'
                /\ fst (get md5 key later m') = Some value)
  /\ (forall (d : DiskCache V) (ttl_arg : option Z),
        (forall seconds, ttl_arg = Some seconds -> later < time + inject_Z seconds) ->
        exists m', set md5 key value ttl_arg time (Disk d) = Some m'
                   /\ fst (get md5 key later m') = Some value).
Proof.
  split.
  - intros c ttl_arg Hsize Hfresh.
    destruct (memory_set_served key value ttl_arg time later c Hsize Hfresh)
      as (m' & Hset & _ & Hget).
    exists m'. auto.
  - intros d ttl_arg Hfresh. eexists. split; [reflexivity|].
    unfold get, disk_get, disk_set, DiskCache in *. cbn [fst].
    rewrite lookup_insert_eq.
    destruct ttl_arg as [seconds|]; cbn [fmap option_fmap option_map].
    + specialize (Hfresh seconds eq_refl).
      apply (live_iff later value) in Hfresh. now rewrite Hfresh.
    + reflexivity.
Qed.

(** X17.  [has] and [get] agree: [has(key)] is [True] exactly when
    [get(key)] finds a value; a [get] changes no answer of [has], for any
    key; and a second [get] at the same time finds what the first found. *)
Theorem has_iff_get (key : string) (time : Q) (m : CacheManager V) :
  (has md5 key time m = true <-> exists value, fst (get md5 key time m) = Some value)
  /\ (forall other, has md5 other time (snd (get md5 key time m)) = has md5 other time m)
  /\ fst (get md5 key time (snd (get md5 key time m))) = fst (get md5 key time m).
Proof.
  conjs; [apply has_get | intros other; apply get_keeps_has | apply get_again].
Qed.

Lemma filter_keys (f : string * (V * Q) -> bool) (l : list (string * (V * Q))) (k : string) :
  k ∈ fst <$> List.filter f l -> k ∈ fst <$> l.
Proof.
  rewrite !list_elem_of_fmap. intros (item & -> & Hin). exists item. split; [reflexivity|].
  apply list_elem_of_In. apply list_elem_of_In in Hin. apply filter_In in Hin. tauto.
Qed.

Lemma filter_keys_distinct (f : string * (V * Q) -> bool) (l : list (string * (V * Q))) :
  NoDup (fst <$> l) -> NoDup (fst <$> List.filter f l).
Proof.
  induction l as [|x l IH]; simpl; [auto|].
  rewrite NoDup_cons. intros [Hx Hl].
  destruct (f x); simpl; [|auto].
  apply NoDup_cons. split; [|auto]. intros Hin. apply Hx. now apply filter_keys in Hin.
Qed.

Lemma filter_shorter (f : string * (V * Q) -> bool) (l : list (string * (V * Q))) :
  (length (List.filter f l) <= length l)%nat.
Proof. induction l as [|x l IH]; simpl; [lia|]. destruct (f x); simpl; lia. Qed.

Lemma skipn_keys_distinct (n : nat) (l : list (string * (V * Q))) :
  NoDup (fst <$> l) -> NoDup (fst <$> List.skipn n l).
Proof.
  revert l. induction n as [|n IH]; intros [|x l]; simpl; auto.
  rewrite NoDup_cons. intros [_ Hl]. now apply IH.
Qed.

Lemma find_none_key (key : string) (l : list (string * (V * Q))) :
  List.find (has_key key) l = None -> key ∉ fst <$> l.
Proof.
  intros Hnone Hin. apply list_elem_of_fmap in Hin as (item & -> & Hin).
  apply list_elem_of_In in Hin.
  pose proof (find_none _ _ Hnone item Hin) as Hk.
  unfold has_key in Hk. now rewrite String.eqb_refl in Hk.
Qed.

Lemma without_key (key : string) (l : list (string * (V * Q))) :
  key ∉ fst <$> without key l.
Proof. apply find_none_key, CacheFacts.find_without. Qed.

(** Taking out a key that is there makes the list shorter. *)
Lemma without_shorter (key : string) (item : string * (V * Q))
  (l : list (string * (V * Q))) :
  List.find (has_key key) l = Some item ->
  (S (length (without key l)) <= length l)%nat.
Proof.
  induction l as [|x l IH]; simpl; [discriminate|].
  destruct (has_key key x) eqn:Hx; simpl.
  - intros _. pose proof (filter_shorter (fun item => negb (has_key key item)) l).
    unfold without. lia.
  - intros H. apply IH in H. lia.
Qed.

(** The two facts the memory backend keeps: one entry per key, and no
    more entries than [maxsize]. *)
Lemma ttl_setitem_tidy (key : string) (value : V) (time : Q) (c c' : TTLCache V) :
  NoDup (fst <$> links c) -> (Z.of_nat (length (links c)) <= maxsize c)%Z ->
  ttl_setitem key value time c = Some c' ->
  maxsize c' = maxsize c /\ ttl c' = ttl c
  /\ NoDup (fst <$> links c') /\ (Z.of_nat (length (links c')) <= maxsize c)%Z.
Proof.
  intros Hnd Hlen. unfold ttl_setitem.
  destruct (maxsize c <? 1)%Z eqn:Hsize; [discriminate|].
  apply Z.ltb_ge in Hsize. intros [= <-]; simpl.
  set (live_links := List.filter (fun item => negb (expired time item)) (links c)).
  assert (Hnd1 : NoDup (fst <$> live_links)) by now apply filter_keys_distinct.
  assert (Hlen1 : (length live_links <= length (links c))%nat) by apply filter_shorter.
  conjs; try reflexivity.
  - rewrite fmap_app. apply NoDup_app. conjs.
    + unfold getlink; simpl. fold live_links.
      destruct (List.find (has_key key) live_links).
      * now apply filter_keys_distinct.
      * now apply skipn_keys_distinct.
    + intros k Hk Hk'. simpl in Hk'. apply list_elem_of_singleton in Hk'. subst k.
      revert Hk. unfold getlink; simpl. fold live_links.
      destruct (List.find (has_key key) live_links) eqn:Hfind.
      * apply without_key.
      * apply find_none_key. now apply CacheFacts.find_skipn_none.
    + simpl. apply NoDup_singleton.
  - rewrite length_app. simpl. unfold getlink; simpl. fold live_links.
    destruct (List.find (has_key key) live_links) eqn:Hfind.
    + apply without_shorter in Hfind. lia.
    + rewrite length_skipn. lia.
Qed.

Lemma ttl_get_tidy (key : string) (time : Q) (c : TTLCache V) :
  NoDup (fst <$> links c) -> (Z.of_nat (length (links c)) <= maxsize c)%Z ->
  let c' := snd (ttl_get key time c) in
  maxsize c' = maxsize c /\ ttl c' = ttl c
  /\ NoDup (fst <$> links c') /\ (Z.of_nat (length (links c')) <= maxsize c)%Z.
Proof.
  intros Hnd Hlen. unfold ttl_get.
  destruct (getlink key c) as [item|] eqn:Hlink; simpl; [|auto].
  destruct (expired time item); simpl; [auto|].
  unfold getlink in Hlink.
  apply find_some in Hlink as Hitem. destruct Hitem as [_ Hkey].
  unfold has_key in Hkey. apply String.eqb_eq in Hkey.
  conjs; try reflexivity.
  - rewrite fmap_app. apply NoDup_app. conjs.
    + now apply filter_keys_distinct.
    + intros k Hk Hk'. simpl in Hk'. apply list_elem_of_singleton in Hk'. subst k.
      rewrite <- Hkey in Hk. revert Hk. apply without_key.
    + simpl. apply NoDup_singleton.
  - rewrite length_app. simpl. apply without_shorter in Hlink. lia.
Qed.

(** X18.  A memory backend constructed with [maxsize >= 1] never holds
    more than [maxsize] entries, and never two under the same key, after any
    sequence of [has], [get], [set], [delete] and [clear] calls. *)
Theorem memory_cache_bounded (maxsize_arg ttl_arg : Z) (calls : list (call V * Q)) :
  (1 <= maxsize_arg)%Z ->
  exists c,
    apply_calls md5 calls (init_memory maxsize_arg ttl_arg) = Memory c
    /\ NoDup (held_keys (Memory c))
    /\ (Z.of_nat (length (links c)) <= maxsize_arg)%Z.
Proof.
  intros Hsize.
  cut (forall c0 : TTLCache V,
         maxsize c0 = maxsize_arg -> NoDup (fst <$> links c0) ->
         (Z.of_nat (length (links c0)) <= maxsize_arg)%Z ->
         exists c, apply_calls md5 calls (Memory c0) = Memory c
                   /\ NoDup (fst <$> links c)
                   /\ (Z.of_nat (length (links c)) <= maxsize_arg)%Z).
  { intros H. apply (H (mkTTLCache maxsize_arg ttl_arg [])); simpl;
      [reflexivity | apply NoDup_nil_2 | lia]. }
  induction calls as [|[c t] calls IH]; intros c0 Hmax Hnd Hlen.
  - exists c0. auto.
  - unfold apply_calls; simpl. fold (apply_calls md5 calls).
    rewrite <- Hmax in Hlen.
    destruct c as [key|key|key value ttl_a|key|]; simpl.
    + apply IH; auto. now rewrite Hmax in Hlen.
    + pose proof (ttl_get_tidy (_make_key md5 key) t c0 Hnd Hlen) as Hget.
      destruct (ttl_get (_make_key md5 key) t c0) as [v c1]. simpl in *.
      destruct Hget as (Hm & _ & Hnd1 & Hlen1).
      apply IH; [congruence | auto | now rewrite Hmax in Hlen1].
    + destruct (ttl_setitem (_make_key md5 key) value t c0) as [c1|] eqn:Hset; simpl.
      * destruct (ttl_setitem_tidy _ _ _ _ _ Hnd Hlen Hset) as (Hm & _ & Hnd1 & Hlen1).
        apply IH; [congruence | auto | now rewrite Hmax in Hlen1].
      * apply IH; auto. now rewrite Hmax in Hlen.
    + destruct (ttl_contains (_make_key md5 key) t c0).
      * apply IH; simpl; auto.
        -- now apply filter_keys_distinct.
        -- pose proof (filter_shorter
                         (fun item => negb (has_key (_make_key md5 key) item)) (links c0)).
           unfold without. rewrite Hmax in Hlen. lia.
      * apply IH; auto. now rewrite Hmax in Hlen.
    + apply IH; simpl; auto; [apply NoDup_nil_2 | lia].
Qed.
End Facts.

Lemma set_get_round_trip_witness :
  exists m', set id "k" 7%nat (Some 5%Z) 0 (Memory (mkTTLCache 1000 3600 [])) = Some m'
             /\ fst (get id "k" 100 m') = Some 7%nat.
Proof.
  apply (set_get_round_trip id "k" 7%nat 0 100).
  - simpl. lia.
  - reflexivity.
Defined.

Lemma delete_and_clear_forget_witness :
  has id "k" 2 (delete id "k" 1 (Disk (disk_set "k" 7%nat None 0 ∅))) = false.
Proof.
  apply (delete_and_clear_forget id "k" 1 2 (Disk (disk_set "k" 7%nat None 0 ∅))).
  vm_compute. discriminate.
Defined.

Lemma memory_cache_bounded_witness :
  exists c,
    apply_calls id [(CallSet "a" 1%nat None, 0); (CallSet "b" 2%nat None, 1);
                    (CallGet "a", 2); (CallSet "c" 3%nat None, 3)]
      (init_memory 2 3600) = Memory c
    /\ NoDup (held_keys (Memory c))
    /\ (Z.of_nat (length (links c)) <= 2)%Z.
Proof.
  apply (memory_cache_bounded id 2 3600). lia.
Defined.

(** With room for two entries, the third [set] puts out the entry that
    was used least recently: [b], because [a] was read after it. *)
Example least_recently_used_goes :
  held_keys
    (apply_calls id [(CallSet "a" 1%nat None, 0); (CallSet "b" 2%nat None, 1);
                     (CallGet "a", 2); (CallSet "c" 3%nat None, 3)]
       (init_memory 2 3600))
  = ["a"; "c"]%string.
Proof. reflexivity. Qed.
End CacheMoreFacts.

(* ===================================================================== *)
(** ** More on [fetch] and [post] *)
(* ===================================================================== *)

Module FetchMoreFacts.
Import Scraper Poster.
Local Open Scope Q_scope.

Section Facts.
Variable md5 : string -> string.
Variable validators_url : string -> bool.
Variable scheme : string -> string.
Variable netloc : string -> string.
Variable session_get : nat -> string -> exn + Response.
Variable random_draw : nat -> Q.

Local Abbreviation fetch :=
  (fetch md5 validators_url scheme netloc session_get random_draw).
Local Abbreviation fetch_remote := (fetch_remote md5 session_get random_draw).

Lemma execute_requests (cfg : ScrapingConfig) (url : string) (w : World) :
  let r := Retry.execute (_do_request session_get url) (random random_draw) sleep
             (retry_manager cfg) w in
  requests_sent (Retry.world r) = (requests_sent w + length (Retry.invocations r))%nat.
Proof.
  unfold Retry.execute.
  apply (RetryCountFacts.execute_from_counts _ _ _ requests_sent); reflexivity.
Qed.

Lemma fetch_remote_requests (cfg : ScrapingConfig) (url cache_key : string) (w : World) :
  let run := Retry.execute (_do_request session_get url) (random random_draw) sleep
               (retry_manager cfg) (_apply_delay random_draw cfg w) in
  requests_sent (snd (fetch_remote cfg url cache_key w))
  = (requests_sent w + length (Retry.invocations run))%nat.
Proof.
  intros run. unfold Scraper.fetch_remote. fold run.
  pose proof (execute_requests cfg url (_apply_delay random_draw cfg w)) as Hreq.
  fold run in Hreq. simpl in Hreq.
  destruct (Retry.res run) as [response| |e|]; simpl; try exact Hreq.
  destruct (raise_for_status response); simpl; [exact Hreq|].
  destruct (cache (Retry.world run)) as [c|]; simpl; [|exact Hreq].
  destruct (Cache.set _ _ _ _ _ c); simpl; exact Hreq.
Qed.

(** X19.  [SmartScraper.fetch] with [max_retries >= 0] sends at most
    [max_retries + 1] requests, and at most one when the first request it
    sends is answered with a response. *)
Theorem fetch_request_count (cfg : ScrapingConfig) (url : string) (w : World) :
  (0 <= max_retries cfg)%Z ->
  let w' := snd (fetch cfg url w) in
  (requests_sent w <= requests_sent w')%nat
  /\ (Z.of_nat (requests_sent w') <= Z.of_nat (requests_sent w) + max_retries cfg + 1)%Z
  /\ (forall response, session_get (requests_sent w) url = inr response ->
        (requests_sent w' <= S (requests_sent w))%nat).
Proof.
  intros Hmax. unfold Scraper.fetch.
  destruct (validate validators_url scheme netloc url); simpl; [conjs; intros; lia|].
  assert (Hremote :
    let w' := snd (fetch_remote cfg url (md5 url) w) in
    (requests_sent w <= requests_sent w')%nat
    /\ (Z.of_nat (requests_sent w') <= Z.of_nat (requests_sent w) + max_retries cfg + 1)%Z
    /\ (forall response, session_get (requests_sent w) url = inr response ->
          (requests_sent w' <= S (requests_sent w))%nat)).
  { cbv zeta. rewrite fetch_remote_requests.
    destruct (RetryFacts.execute_from_spec (_do_request session_get url)
                (random random_draw) sleep (retry_manager cfg)
                (Z.to_nat (Retry.max_retries (retry_manager cfg) + 1)) 0%Z None
                (_apply_delay random_draw cfg w)) as (Hlen & _ & _).
    fold (Retry.execute (_do_request session_get url) (random random_draw) sleep
            (retry_manager cfg) (_apply_delay random_draw cfg w)) in Hlen.
    simpl in Hlen. conjs; [lia | lia |].
    intros response Hanswer.
    unfold Retry.execute. simpl.
    replace (Z.to_nat (max_retries cfg + 1)) with (S (Z.to_nat (max_retries cfg))) by lia.
    simpl. rewrite Hanswer. simpl. lia. }
  destruct (cache w) as [c|]; [|exact Hremote].
  destruct (Cache.has md5 (md5 url) (clock w) c); [|exact Hremote].
  destruct (Cache.get md5 (md5 url) (clock w) c) as [v c']. simpl.
  conjs; intros; lia.
Qed.

(** What [set] stores is served at once when its time-to-live is
    positive: the constructor's for the memory backend, the argument's for
    the disk backend. *)
Lemma set_served_now (key : string) (value : Response) (seconds : Z) (time : Q)
  (m m' : Cache.CacheManager Response) :
  match m with
  | Cache.Memory c => (0 < Cache.ttl c)%Z
  | Cache.Disk _ => (0 < seconds)%Z
  end ->
  Cache.set md5 key value (Some seconds) time m = Some m' ->
  Cache.has md5 key time m' = true
  /\ fst (Cache.get md5 key time m') = Some value.
Proof.
  intros Hpos Hset. destruct m as [c|d].
  - assert (Hsize : (1 <= Cache.maxsize c)%Z).
    { unfold Cache.set, Cache.ttl_setitem in Hset.
      destruct (Cache.maxsize c <? 1)%Z eqn:Hlt; [discriminate|].
      apply Z.ltb_ge in Hlt. exact Hlt. }
    assert (Hfresh : time < time + inject_Z (Cache.ttl c)).
    { assert (0 < inject_Z (Cache.ttl c)) by (change 0 with (inject_Z 0); rewrite <- Zlt_Qlt; exact Hpos).
      lra. }
    destruct (CacheMoreFacts.memory_set_served md5 key value (Some seconds) time time c
                Hsize Hfresh) as (m1 & Hset1 & Hhas & Hget).
    rewrite Hset in Hset1. injection Hset1 as <-. auto.
  - injection Hset as <-.
    assert (Hfresh : time < time + inject_Z seconds).
    { assert (0 < inject_Z seconds) by (change 0 with (inject_Z 0); rewrite <- Zlt_Qlt; exact Hpos). lra. }
    apply (CacheMoreFacts.live_iff time value) in Hfresh.
    unfold Cache.has, Cache.get, Cache.disk_contains, Cache.disk_get, Cache.disk_set,
      Cache.DiskCache in *. cbn [fst].
    rewrite lookup_insert_eq. cbn [fmap option_fmap option_map].
    rewrite Hfresh. auto.
Qed.

(** A fetch that finds the URL in the cache answers from it and leaves
    the network, the clock and the random numbers alone. *)
Lemma fetch_hit (cfg : ScrapingConfig) (url : string) (w : World)
  (m : Cache.CacheManager Response) (r : Response) :
  validate validators_url scheme netloc url = None ->
  cache w = Some m ->
  Cache.has md5 (md5 url) (clock w) m = true ->
  fst (Cache.get md5 (md5 url) (clock w) m) = Some r ->
  fetch cfg url w
  = (Return r, with_cache (Some (snd (Cache.get md5 (md5 url) (clock w) m))) w).
Proof.
  intros Hvalid Hcache Hhas Hget. unfold Scraper.fetch.
  rewrite Hvalid, Hcache, Hhas.
  destruct (Cache.get md5 (md5 url) (clock w) m) as [v c']. cbn [fst snd] in *.
  now rewrite Hget.
Qed.

(** X20.  A URL for which [SmartScraper.fetch] has just returned a
    response is served from the cache: with a cache whose time-to-live is
    positive, fetching the same URL again in the state the first call left
    returns the same response, sends no request, draws no random number and
    does not sleep. *)
Theorem fetch_twice_hits (cfg : ScrapingConfig) (url : string) (w w1 : World)
  (m : Cache.CacheManager Response) (r : Response) :
  cache w = Some m ->
  match m with
  | Cache.Memory c => (0 < Cache.ttl c)%Z
  | Cache.Disk _ => (0 < cache_ttl cfg)%Z
  end ->
  fetch cfg url w = (Return r, w1) ->
  exists w2, fetch cfg url w1 = (Return r, w2)
             /\ requests_sent w2 = requests_sent w1
             /\ clock w2 = clock w1
             /\ draws w2 = draws w1.
Proof.
  intros Hcache Hpos Hfetch.
  assert (Hvalid : validate validators_url scheme netloc url = None).
  { unfold Scraper.fetch in Hfetch.
    destruct (validate validators_url scheme netloc url); [discriminate | reflexivity]. }
  assert (Hserved : exists m1, cache w1 = Some m1
            /\ Cache.has md5 (md5 url) (clock w1) m1 = true
            /\ fst (Cache.get md5 (md5 url) (clock w1) m1) = Some r).
  { unfold Scraper.fetch in Hfetch. rewrite Hvalid, Hcache in Hfetch.
    destruct (Cache.has md5 (md5 url) (clock w) m) eqn:Hhas.
    - pose proof (CacheMoreFacts.get_keeps_has md5 (md5 url) (md5 url) (clock w) m) as Hk.
      pose proof (CacheMoreFacts.get_again md5 (md5 url) (clock w) m) as Ha.
      destruct (Cache.get md5 (md5 url) (clock w) m) as [v c']. cbn [fst snd] in *.
      destruct v as [r0|]; [|discriminate].
      injection Hfetch as <- <-. exists c'. cbn [cache clock with_cache].
      conjs; [reflexivity | now rewrite Hk | exact Ha].
    - unfold Scraper.fetch_remote in Hfetch.
      pose proof (FetcherFacts.execute_keeps_cache session_get random_draw cfg url
                    (_apply_delay random_draw cfg w)) as Hkeep.
      rewrite FetcherFacts.delay_keeps_cache, Hcache in Hkeep.
      destruct (Retry.res _) as [response| |e|]; try discriminate.
      destruct (raise_for_status response); [discriminate|].
      rewrite Hkeep in Hfetch.
      destruct (Cache.set md5 (md5 url) response (Some (cache_ttl cfg)) _ m)
        as [m1|] eqn:Hset; [|discriminate].
      injection Hfetch as <- <-. exists m1. cbn [cache clock with_cache].
      split; [reflexivity|].
      exact (set_served_now _ _ _ _ _ _ Hpos Hset). }
  destruct Hserved as (m1 & Hcache1 & Hhas1 & Hget1).
  eexists. split; [exact (fetch_hit cfg url w1 m1 r Hvalid Hcache1 Hhas1 Hget1)|].
  cbn [requests_sent clock draws with_cache]. auto.
Qed.
End Facts.

Lemma fetch_request_count_witness :
  let w := new_world Scenario.plain 0 in
  let w' := snd (Scenario.fetch_in (Scenario.failing_for Scenario.B_url) Scenario.plain
                   Scenario.B_url w) in
  (requests_sent w <= requests_sent w')%nat
  /\ (Z.of_nat (requests_sent w') <= Z.of_nat (requests_sent w) + 3 + 1)%Z
  /\ (forall response,
        Scenario.failing_for Scenario.B_url (requests_sent w) Scenario.B_url
        = inr response ->
        (requests_sent w' <= S (requests_sent w))%nat).
Proof.
  intros w.
  apply (fetch_request_count (fun s => s) (fun _ => true) (fun _ => "https"%string)
           (fun _ => "a.example"%string) (Scenario.failing_for Scenario.B_url)
           (fun _ => 0%Q) Scenario.plain Scenario.B_url w).
  simpl. lia.
Defined.

Example fetch_uses_every_attempt :
  requests_sent (snd (Scenario.fetch_in (Scenario.failing_for Scenario.B_url)
                        Scenario.plain Scenario.B_url (new_world Scenario.plain 0)))
  = 4%nat.
Proof. reflexivity. Qed.

Lemma fetch_twice_hits_witness :
  let w := new_world Scenario.caching 0 in
  let w1 := snd (Scenario.fetch_in (Scenario.answering 200) Scenario.caching
                   Scenario.S_url w) in
  exists w2,
    Scenario.fetch_in (Scenario.answering 200) Scenario.caching Scenario.S_url w1
    = (Return (mkResponse 200 ""), w2)
    /\ requests_sent w2 = requests_sent w1
    /\ clock w2 = clock w1
    /\ draws w2 = draws w1.
Proof.
  intros w w1.
  apply (fetch_twice_hits (fun s => s) (fun _ => true) (fun _ => "https"%string)
           (fun _ => "a.example"%string) (Scenario.answering 200) (fun _ => 0%Q)
           Scenario.caching Scenario.S_url w w1 (Cache.init_memory 1000 3600)
           (mkResponse 200 "")).
  - reflexivity.
  - simpl. lia.
  - reflexivity.
Defined.
End FetchMoreFacts.

Module RequestFacts.
Import Scraper Poster.
Local Open Scope Q_scope.

Section Facts.
Variable md5 : string -> string.
Variable validators_url : string -> bool.
Variable scheme : string -> string.
Variable netloc : string -> string.
Variable session : nat -> string -> exn + Response.
Variable random_draw : nat -> Q.

Local Abbreviation fetch :=
  (fetch md5 validators_url scheme netloc session random_draw).
Local Abbreviation post := (post validators_url scheme netloc session random_draw).



Lemma validate_cases (url : string) :
  (validate validators_url scheme netloc url = None
   /\ url <> "" /\ validators_url url = true
   /\ (scheme url = "http" \/ scheme url = "https") /\ netloc url <> "")
  \/ (validate validators_url scheme netloc url = Some ValueError
      /\ (url = "" \/ validators_url url = false
          \/ (scheme url <> "http" /\ scheme url <> "https") \/ netloc url = "")).
Proof.
  unfold validate.
  destruct (String.eqb_spec url "") as [H1|H1]; [right; auto|].
  destruct (validators_url url) eqn:H2; simpl; [|right; auto].
  destruct (String.eqb_spec (scheme url) "http") as [H3|H3];
    destruct (String.eqb_spec (scheme url) "https") as [H4|H4]; simpl;
    destruct (String.eqb_spec (netloc url) "") as [H5|H5];
    first [ left; conjs; solve [auto]
          | right; split; [reflexivity | solve [auto 6]] ].
Qed.

(** X22.  A URL that is empty, that [validators.url] rejects, whose
    scheme is neither http nor https, or that has no network location is
    refused with [ValueError] by [fetch] and [post] of [SmartScraper] and of
    [AsyncScraper] before anything else happens: no delay, no request, no
    access to the cache. *)
Theorem invalid_url_refused (cfg : ScrapingConfig) (url : string) (w : World) :
  url = "" \/ validators_url url = false
  \/ (scheme url <> "http" /\ scheme url <> "https") \/ netloc url = "" ->
  fetch cfg url w = (Raise ValueError, w)
  /\ post cfg url w = (Raise ValueError, w)
  /\ (forall async_get retries i,
        Scraper.async_fetch validators_url scheme netloc async_get retries i url
        = Retry.mkRun (Raise ValueError) [] [] 0%nat)
  /\ (forall answer,
        async_post validators_url scheme netloc answer url = Raise ValueError).
Proof.
  intros Hbad.
  assert (Hv : validate validators_url scheme netloc url = Some ValueError).
  { destruct (validate_cases url) as [(_ & H1 & H2 & H3 & H4)|[Hv _]]; [|exact Hv].
    exfalso. destruct Hbad as [H|[H|[[Ha Hb]|H]]]; try congruence.
    destruct H3; contradiction. }
  unfold Scraper.fetch, Poster.post, Scraper.async_fetch, async_post.
  rewrite Hv. auto.
Qed.

(** X23.  [SmartScraper.post] returns the response of the first request
    that is answered, whatever its status: with a valid URL and
    [max_retries >= 0], when the first request gets a response, [post]
    returns it after this one request.  It does not touch the cache, and it
    does not call [raise_for_status] as [fetch] does. *)
Theorem post_returns_any_status (cfg : ScrapingConfig) (url : string) (w : World)
  (response : Response) :
  validate validators_url scheme netloc url = None ->
  (0 <= max_retries cfg)%Z ->
  session (requests_sent w) url = inr response ->
  fst (post cfg url w) = Return response
  /\ requests_sent (snd (post cfg url w)) = S (requests_sent w)
  /\ cache (snd (post cfg url w)) = cache w.
Proof.
  intros Hvalid Hmax Hanswer. unfold Poster.post. rewrite Hvalid. cbn [fst snd].
  pose proof (FetcherFacts.execute_keeps_cache session random_draw cfg url
                (_apply_delay random_draw cfg w)) as Hkeep.
  change (_do_request session url) with (_do_post session url) in Hkeep.
  rewrite Hkeep. unfold Retry.execute. simpl.
  replace (Z.to_nat (max_retries cfg + 1)) with (S (Z.to_nat (max_retries cfg))) by lia.
  simpl. rewrite Hanswer. simpl. auto.
Qed.
End Facts.

Section Async.
Variable validators_url : string -> bool.
Variable scheme : string -> string.
Variable netloc : string -> string.
Variable async_get : nat -> string -> nat -> exn + Response.

Local Abbreviation async_fetch := (async_fetch validators_url scheme netloc async_get).

(** X24.  A response that [AsyncScraper.fetch] or [AsyncScraper.post]
    returns has a status below 400 and is the answer to one of the requests
    made.  [fetch] returns [None] exactly when the URL is valid and
    [max_retries] is zero or negative: its loop then makes no attempt. *)
Theorem async_returns_below_400 (cfg : Z) (i : nat) (url : string) :
  (forall response, Retry.res (async_fetch cfg i url) = Return response ->
     (status_code response < 400)%Z
     /\ exists k, async_get i url k = inr response)
  /\ (forall answer response,
        async_post validators_url scheme netloc answer url = Return response ->
        (status_code response < 400)%Z /\ answer = inr response)
  /\ (Retry.res (async_fetch cfg i url) = ReturnNone <->
      validate validators_url scheme netloc url = None /\ (cfg <= 0)%Z).
Proof.
  assert (Hstatus : forall response,
            aiohttp_raise_for_status response = None -> (status_code response < 400)%Z).
  { intros response. unfold aiohttp_raise_for_status.
    destruct (400 <=? status_code response)%Z eqn:H; [discriminate|].
    intros _. apply Z.leb_gt in H. exact H. }
  assert (Hnone : (cfg <= 0)%Z ->
            Retry.async_retry (attempt_once async_get i url) (fun _ k => k) is_Exception
              cfg 0%nat
            = Retry.mkRun ReturnNone [] [] 0%nat).
  { intros Hle. unfold Retry.async_retry.
    replace (Z.to_nat cfg) with 0%nat by lia. reflexivity. }
  assert (Hsome : (0 < cfg)%Z ->
    let r := Retry.async_retry (attempt_once async_get i url) (fun _ k => k)
               is_Exception cfg 0%nat in
    (forall v, Retry.res r = Return v ->
       exists k, fst (attempt_once async_get i url k) = inr v)
    /\ Retry.res r <> ReturnNone).
  { intros Hpos.
    destruct (RetryCountFacts.async_attempts_result
                (attempt_once async_get i url) (fun _ k => k) is_Exception cfg
                (Z.to_nat cfg) 0%Z 0%nat) as (Hret & Hno & _); [lia|].
    split; [exact Hret|]. intros H. apply Hno in H. lia. }
  conjs.
  - intros response. unfold Scraper.async_fetch.
    destruct (validate validators_url scheme netloc url); [discriminate|].
    intros Hres.
    destruct (Z_le_gt_dec cfg 0) as [Hle|Hgt].
    { rewrite (Hnone Hle) in Hres. discriminate. }
    destruct Hsome as [Hret _]; [lia|].
    destruct (Hret response Hres) as [k Hk]. unfold attempt_once in Hk. cbn [fst] in Hk.
    destruct (async_get i url k) as [e|r] eqn:Hget; [discriminate|].
    destruct (aiohttp_raise_for_status r) eqn:Hr; [discriminate|].
    injection Hk as ->. split; [now apply Hstatus | now exists k].
  - intros answer response. unfold async_post.
    destruct (validate validators_url scheme netloc url); [discriminate|].
    destruct answer as [e|r]; [discriminate|].
    destruct (aiohttp_raise_for_status r) eqn:Hr; [discriminate|].
    intros [= ->]. split; [now apply Hstatus | reflexivity].
  - unfold Scraper.async_fetch.
    destruct (validate validators_url scheme netloc url).
    { split; [discriminate | intros [H _]; discriminate]. }
    split.
    + intros Hres. split; [reflexivity|].
      destruct (Z_le_gt_dec cfg 0) as [Hle|Hgt]; [exact Hle|].
      destruct Hsome as [_ Hno]; [lia | contradiction].
    + intros [_ Hle]. now rewrite (Hnone Hle).
Qed.
End Async.

Lemma invalid_url_refused_witness :
  Scenario.fetch_in (Scenario.answering 200) Scenario.plain "" (new_world Scenario.plain 0)
  = (Raise ValueError, new_world Scenario.plain 0).
Proof.
  apply (invalid_url_refused (fun s => s) (fun _ => true) (fun _ => "https"%string)
           (fun _ => "a.example"%string) (Scenario.answering 200) (fun _ => 0%Q)
           Scenario.plain "" (new_world Scenario.plain 0)).
  left. reflexivity.
Defined.

Lemma post_returns_any_status_witness :
  let out := Poster.post (fun _ => true) (fun _ => "https"%string)
               (fun _ => "a.example"%string) (Scenario.answering 500) (fun _ => 0%Q)
               Scenario.plain Scenario.S_url (new_world Scenario.plain 0) in
  fst out = Return (mkResponse 500 "")
  /\ requests_sent (snd out) = 1%nat
  /\ cache (snd out) = None.
Proof.
  apply (post_returns_any_status (fun _ => true) (fun _ => "https"%string)
           (fun _ => "a.example"%string) (Scenario.answering 500) (fun _ => 0%Q)
           Scenario.plain Scenario.S_url (new_world Scenario.plain 0)
           (mkResponse 500 "")).
  - reflexivity.
  - simpl. lia.
  - reflexivity.
Defined.

(** The same answer ends a [fetch] with [HTTPError]. *)
Example fetch_raises_what_post_returns :
  fst (Scenario.fetch_in (Scenario.answering 500) Scenario.plain Scenario.S_url
         (new_world Scenario.plain 0))
  = Raise (HTTPError 500).
Proof. reflexivity. Qed.

(** [AsyncScraper.fetch] with [max_retries = 0] makes no request and
    returns [None]. *)
Example async_fetch_without_attempts :
  Scraper.async_fetch (fun _ => true) (fun _ => "https"%string)
    (fun _ => "a.example"%string) (fun _ _ _ => inr (mkResponse 200 "")) 0 0
    Scenario.S_url
  = Retry.mkRun ReturnNone [] [] 0%nat.
Proof. reflexivity. Qed.
End RequestFacts.

(* ===================================================================== *)
(** ** More on [crawl], and [infinite_scroll] *)
(* ===================================================================== *)

Module CrawlMoreFacts.
Import Scraper.

Section Facts.
Context {W Soup : Type}.
Variable scrape : string -> W -> (exn + Soup) * W.
Variable find_all_href : Soup -> list string.
Variable urljoin : string -> string -> string.
Variable netloc : string -> string.
Variable start_url : string.
Variable max_pages : Z.
Variable same_domain : bool.
Variable link_filter : option (string -> bool).

Local Abbreviation rejected := (rejected netloc start_url same_domain link_filter).
Local Abbreviation follow := (follow urljoin netloc start_url same_domain link_filter).
Local Abbreviation crawl_body :=
  (crawl_body scrape find_all_href urljoin netloc start_url same_domain link_filter).
Local Abbreviation running := (running max_pages).
Local Abbreviation crawl_loop :=
  (crawl_loop scrape find_all_href urljoin netloc start_url max_pages same_domain
     link_filter).
Local Abbreviation reachable :=
  (reachable scrape find_all_href urljoin netloc start_url max_pages same_domain
     link_filter).
Local Abbreviation crawl_run :=
  (crawl_run scrape find_all_href urljoin netloc start_url max_pages same_domain
     link_filter).
Local Abbreviation crawl :=
  (crawl scrape find_all_href urljoin netloc start_url max_pages same_domain
     link_filter).

Local Abbreviation cases :=
  (CrawlerFacts.crawl_body_cases scrape find_all_href urljoin netloc start_url
     same_domain link_filter).





Lemma follow_accepted url seen hrefs u :
  u ∈ follow url seen hrefs [] -> rejected u = false.
Proof.
  rewrite (CrawlerFacts.follow_links urljoin netloc start_url same_domain link_filter).
  intros H. apply list_elem_of_In, filter_In in H. destruct H as [_ H].
  apply andb_true_iff in H. destruct H as [H _]. now apply negb_true_iff in H.
Qed.

(** Whatever waits in the queue or was handed to [self.scrape] had been
    put into the queue, and only the start URL gets there unchecked. *)
Lemma reachable_scope (w : W) (st : frontier W Soup) :
  reachable w st ->
  (forall u, u ∈ enqueued st -> u = start_url \/ rejected u = false)
  /\ (forall u, u ∈ to_visit st -> u ∈ enqueued st)
  /\ (forall u, u ∈ fetched st -> u ∈ enqueued st).
Proof.
  induction 1 as [|st st' _ (IHe & IHq & IHf) _ Hbody].
  - simpl. conjs.
    + intros u Hu. apply list_elem_of_singleton in Hu. now left.
    + auto.
    + intros u Hu. inversion Hu.
  - destruct (cases st st' Hbody) as (url & rest & Hq & Hcase).
    rewrite Hq in IHq.
    assert (Hurl : url ∈ enqueued st) by (apply IHq; left).
    assert (Hrest : forall u, u ∈ rest -> u ∈ enqueued st)
      by (intros u Hu; apply IHq; now right).
    destruct Hcase as [[Hin ->]|[(Hout & soup & w1 & Hs & ->)|(Hout & e & w1 & Hs & He & ->)]];
      cbn [enqueued to_visit fetched].
    + conjs; auto.
    + conjs.
      * intros u Hu. apply elem_of_app in Hu. destruct Hu as [Hu|Hu]; [auto|].
        right. now apply follow_accepted in Hu.
      * intros u Hu. apply elem_of_app in Hu. apply elem_of_app.
        destruct Hu as [Hu|Hu]; auto.
      * intros u Hu. apply elem_of_app in Hu. apply elem_of_app. left.
        destruct Hu as [Hu|Hu]; [auto|].
        apply list_elem_of_singleton in Hu. now subst u.
    + conjs; auto.
      intros u Hu. apply elem_of_app in Hu.
      destruct Hu as [Hu|Hu]; [auto|].
      apply list_elem_of_singleton in Hu. now subst u.
Qed.

(** X26.  In every state a crawl goes through, each URL handed to
    [self.scrape], the start URL apart, passed the checks of the link loop:
    with [same_domain] its network location is that of the start URL, and
    with a [link_filter] the filter accepted it. *)
Theorem crawl_stays_in_scope (w : W) (st : frontier W Soup) (u : string) :
  reachable w st -> u ∈ fetched st -> u <> start_url ->
  (same_domain = true -> netloc u = netloc start_url)
  /\ (forall keep, link_filter = Some keep -> keep u = true).
Proof.
  intros Hreach Hu Hne.
  destruct (reachable_scope w st Hreach) as (He & _ & Hf).
  destruct (He u (Hf u Hu)) as [Heq|Hok]; [contradiction|].
  unfold Scraper.rejected, base_domain in Hok.
  apply orb_false_iff in Hok. destruct Hok as [Hdom Hkeep]. split.
  - intros Hsame. rewrite Hsame in Hdom. simpl in Hdom.
    apply negb_false_iff, String.eqb_eq in Hdom. exact Hdom.
  - intros keep Hfilter. rewrite Hfilter in Hkeep. now apply negb_false_iff in Hkeep.
Qed.

End Facts.

Lemma crawl_stays_in_scope_witness :
  (true = true -> "a.example"%string = "a.example"%string)
  /\ (forall keep : string -> bool, None = Some keep -> keep Scenario.B_url = true).
Proof.
  apply (crawl_stays_in_scope (Scenario.web Scenario.twice_pages) (fun hrefs => hrefs)
           (fun _ href => href) (fun _ => "a.example"%string) Scenario.S_url 3 true None
           tt
           (mkFrontier {[Scenario.B_url; Scenario.S_url]} [Scenario.B_url]
              [[Scenario.B_url; Scenario.B_url]; []] tt
              [Scenario.S_url; Scenario.B_url] [Scenario.S_url; Scenario.B_url]
              [Scenario.S_url; Scenario.B_url; Scenario.B_url])
           Scenario.B_url).
  - apply (reach_pass _ _ _ _ _ _ _ _ _ Scenario.start_scraped).
    + apply (reach_pass _ _ _ _ _ _ _ _ _ (crawl_start Scenario.S_url tt)).
      * apply reach_start.
      * reflexivity.
      * vm_compute. reflexivity.
    + reflexivity.
    + vm_compute. reflexivity.
  - right. left.
  - discriminate.
Defined.
End CrawlMoreFacts.

Module ScrollingFacts.
Import Scrolling.

Lemma selenium_loop_spec (height : nat -> Z) (todo : nat) :
  forall reads,
  let n := selenium_loop height todo (S reads) (height reads) in
  (n <= todo)%nat
  /\ (forall k, (S k < n)%nat -> height (S (reads + k)) <> height (reads + k)%nat)
  /\ ((n < todo)%nat -> exists k, n = S k /\ height (S (reads + k)) = height (reads + k)%nat).
Proof.
  induction todo as [|todo IH]; intros reads; simpl.
  - conjs; [lia | intros; lia | intros; lia].
  - destruct (height (S reads) =? height reads)%Z eqn:Hsame.
    + apply Z.eqb_eq in Hsame. conjs; [lia | intros; lia |].
      intros _. exists 0%nat. rewrite Nat.add_0_r. auto.
    + apply Z.eqb_neq in Hsame. destruct (IH (S reads)) as (Hle & Hgrow & Hstop).
      conjs.
      * lia.
      * intros [|k] Hk.
        -- now rewrite Nat.add_0_r.
        -- replace (reads + S k)%nat with (S reads + k)%nat by lia.
           apply Hgrow. lia.
      * intros Hlt. destruct Hstop as (k & Hn & Hk); [lia|].
        exists (S k). rewrite Hn.
        replace (reads + S k)%nat with (S reads + k)%nat by lia. auto.
Qed.

(** X27.  [SeleniumScraper.infinite_scroll] scrolls at most
    [max(0, max_scrolls)] times; every scroll but the last changed the
    height of the page; and when it stops before [max_scrolls] scrolls, the
    last scroll left the height as it was. *)
Theorem selenium_scroll_stops (height : nat -> Z) (max_scrolls : Z) :
  let n := selenium_infinite_scroll height max_scrolls in
  (Z.of_nat n <= Z.max 0 max_scrolls)%Z
  /\ (forall k, (S k < n)%nat -> height (S k) <> height k)
  /\ ((Z.of_nat n < max_scrolls)%Z ->
      exists k, n = S k /\ height (S k) = height k).
Proof.
  intros n. destruct (selenium_loop_spec height (Z.to_nat max_scrolls) 0)
    as (Hle & Hgrow & Hstop).
  fold (selenium_infinite_scroll height max_scrolls) in Hle, Hgrow, Hstop.
  fold n in Hle, Hgrow, Hstop. simpl in *.
  conjs; [lia | exact Hgrow | intros H; apply Hstop; lia].
Qed.

Lemma playwright_loop_spec (height : nat -> Z) (todo : nat) :
  forall reads,
  let n := playwright_loop height todo reads in
  (n <= todo)%nat
  /\ (forall k, (S k < n)%nat ->
        height (S (reads + 2 * k)) <> height (reads + 2 * k)%nat)
  /\ ((n < todo)%nat ->
      exists k, n = S k /\ height (S (reads + 2 * k)) = height (reads + 2 * k)%nat).
Proof.
  induction todo as [|todo IH]; intros reads; simpl.
  - conjs; [lia | intros; lia | intros; lia].
  - destruct (height (S reads) =? height reads)%Z eqn:Hsame.
    + apply Z.eqb_eq in Hsame. conjs; [lia | intros; lia |].
      intros _. exists 0%nat. rewrite Nat.add_0_r. auto.
    + apply Z.eqb_neq in Hsame. destruct (IH (S (S reads))) as (Hle & Hgrow & Hstop).
      conjs.
      * lia.
      * intros [|k] Hk.
        -- now rewrite Nat.add_0_r.
        -- replace (reads + (S k + (S k + 0)))%nat with (S (S reads) + 2 * k)%nat by lia.
           apply Hgrow. lia.
      * intros Hlt. destruct Hstop as (k & Hn & Hk); [lia|].
        exists (S k). rewrite Hn.
        replace (reads + (S k + (S k + 0)))%nat with (S (S reads) + 2 * k)%nat by lia.
        auto.
Qed.

(** X28.  [PlaywrightScraper.infinite_scroll] scrolls at most
    [max(0, max_scrolls)] times; every scroll but the last changed the
    height read before it; and when it stops before [max_scrolls] scrolls,
    the last scroll left the height as it was. *)
Theorem playwright_scroll_stops (height : nat -> Z) (max_scrolls : Z) :
  let n := playwright_infinite_scroll height max_scrolls in
  (Z.of_nat n <= Z.max 0 max_scrolls)%Z
  /\ (forall k, (S k < n)%nat -> height (S (2 * k)) <> height (2 * k)%nat)
  /\ ((Z.of_nat n < max_scrolls)%Z ->
      exists k, n = S k /\ height (S (2 * k)) = height (2 * k)%nat).
Proof.
  intros n. destruct (playwright_loop_spec height (Z.to_nat max_scrolls) 0)
    as (Hle & Hgrow & Hstop).
  fold (playwright_infinite_scroll height max_scrolls) in Hle, Hgrow, Hstop.
  fold n in Hle, Hgrow, Hstop.
  conjs; [lia | exact Hgrow | intros H; apply Hstop; lia].
Qed.

End ScrollingFacts.

(* ===================================================================== *)
(** ** [extract_table] *)
(* ===================================================================== *)

Module ParsersFacts.
Import Parsers.

Local Abbreviation fill :=
  (fold_left (fun (data : gmap string string) (pair : string * string) =>
                <[fst pair := snd pair]> data)).

Lemma fill_other (pairs : list (string * string)) (header : string) :
  forall data, header ∉ pairs.*1 -> fill pairs data !! header = data !! header.
Proof.
  induction pairs as [|[h c] pairs IH]; intros data Hout; simpl; [reflexivity|].
  rewrite fmap_cons, not_elem_of_cons in Hout. destruct Hout as [Hne Hout].
  rewrite IH by exact Hout. simpl in *. apply lookup_insert_ne. intros E. apply Hne. now rewrite E.
Qed.

Lemma fill_from (pairs : list (string * string)) (header text : string) :
  forall data, fill pairs data !! header = Some text ->
               data !! header = Some text \/ (header, text) ∈ pairs.
Proof.
  induction pairs as [|[h c] pairs IH]; intros data; simpl; [auto|].
  intros H. apply IH in H. destruct H as [H|H].
  - destruct (decide (h = header)) as [->|Hne].
    + rewrite lookup_insert_eq in H. injection H as ->. right. left.
    + rewrite lookup_insert_ne in H by exact Hne. now left.
  - right. now right.
Qed.

Lemma zip_headers (headers cells : list string) (header : string) :
  header ∈ (zip headers cells).*1 -> header ∈ headers.
Proof.
  intros H. apply list_elem_of_fmap in H. destruct H as ([h c] & -> & H).
  now apply elem_of_zip_l in H.
Qed.

(** Under distinct headers, the cell at a header's position is the entry
    of the row under this header. *)
Lemma row_data_cell (headers cells : list string) (i : nat) (header text : string) :
  NoDup headers -> headers !! i = Some header -> cells !! i = Some text ->
  row_data headers cells !! header = Some text.
Proof.
  unfold row_data. generalize (∅ : gmap string string).
  revert cells i. induction headers as [|h headers IH]; intros cells i data Hnd Hh Hc.
  - discriminate.
  - destruct cells as [|c cells]; [discriminate|].
    apply NoDup_cons in Hnd. destruct Hnd as [Hout Hnd]. simpl.
    destruct i as [|i]; simpl in Hh, Hc.
    + injection Hh as ->. injection Hc as ->.
      rewrite fill_other; [apply lookup_insert_eq|].
      intros H. apply Hout. now apply zip_headers in H.
    + now apply (IH cells i).
Qed.

(** Every entry of a row is a cell under the header of its position. *)
Lemma row_data_entry (headers cells : list string) (header text : string) :
  row_data headers cells !! header = Some text ->
  exists i, headers !! i = Some header /\ cells !! i = Some text.
Proof.
  unfold row_data. intros H. apply fill_from in H.
  destruct H as [H|H]; [now rewrite lookup_empty in H|].
  apply list_elem_of_lookup in H. destruct H as [i Hi].
  apply lookup_zip_with_Some in Hi. destruct Hi as (h & c & [= <- <-] & Hh & Hc).
  now exists i.
Qed.

Lemma table_rows_spec (headers : list string) (rows : list (list string)) :
  table_rows headers rows
  = row_data headers
      <$> List.filter (fun cells => (length cells =? length headers)%nat) rows.
Proof.
  induction rows as [|cells rows IH]; simpl; [reflexivity|].
  destruct (length cells =? length headers)%nat; simpl; now rewrite IH.
Qed.

(** X29.  [HTMLParser.extract_table] on a table that [select_one]
    found: the result has one dictionary for each data row with as many
    cells as there are headers, in order, and no more dictionaries than the
    table has rows; every entry of a dictionary is the text of a cell, under
    the header of the same position; and when the headers are distinct, a
    dictionary maps every header to the cell at its position. *)
Theorem extract_table_rows (table : Table) (given : option (list string)) :
  let headers := default (th_texts table) given in
  let kept := List.filter (fun cells => (length cells =? length headers)%nat)
                (data_rows table) in
  extract_table (Some table) given = row_data headers <$> kept
  /\ (length (extract_table (Some table) given) <= length (trs table))%nat
  /\ (forall cells header text,
        cells ∈ kept -> row_data headers cells !! header = Some text ->
        exists i, headers !! i = Some header /\ cells !! i = Some text)
  /\ (NoDup headers ->
      forall cells i header,
        cells ∈ kept -> headers !! i = Some header ->
        row_data headers cells !! header = cells !! i).
Proof.
  intros headers kept.
  assert (Heq : extract_table (Some table) given = row_data headers <$> kept).
  { unfold extract_table. rewrite table_rows_spec. unfold headers, kept.
    destruct given; reflexivity. }
  conjs.
  - exact Heq.
  - rewrite Heq, length_fmap. unfold kept.
    etransitivity; [apply filter_length_le|].
    unfold data_rows. destruct (th_texts table); [lia|].
    destruct (trs table); simpl; lia.
  - intros cells header text _. apply row_data_entry.
  - intros Hnd cells i header Hin Hh.
    apply list_elem_of_In, filter_In in Hin. destruct Hin as [_ Hlen].
    apply Nat.eqb_eq in Hlen.
    destruct (cells !! i) as [text|] eqn:Hc.
    + now apply (row_data_cell headers cells i).
    + apply lookup_ge_None in Hc. apply lookup_lt_Some in Hh. lia.
Qed.

Example extract_table_drops_the_first_row :
  extract_table (Some (mkTable ["name"] [["ann"]; ["name"]; ["bob"]])) (Some ["name"])
  = [{["name" := "name"]}; {["name" := "bob"]}].
Proof. reflexivity. Qed.

Example extract_table_repeated_header :
  extract_table (Some (mkTable [] [["1"; "2"]])) (Some ["x"; "x"]) = [{["x" := "2"]}].
Proof. reflexivity. Qed.

End ParsersFacts.

